(** * The RxNav cache store, remote client, workers and cache writer

    A shallow embedding of [rxnav_rest_api_mp.py] (the class
    [rxnav_rest_api_mp]: cache file, in-memory index, retrying REST client)
    and of the multiprocessing part of [build_rxnorm_metadata.py] (work
    partition, worker tasks, cache writer task).

    Conventions of the embedding:
    - a Python [str] is a Rocq [string]; the cache file is the string of its
      characters and a file position is the index of the next unread
      character (the data is ASCII, so characters and bytes coincide);
    - the file is opened in text mode with universal newlines, so
      [readline] ends a line at LF, CR or CR LF and hands back LF;
    - the dict [rxnav_cache] is a [gmap string (nat * string)];
    - a Python exception is a value of [exn], a call that may raise returns
      an [outcome];
    - log output, [time.sleep] and the timing statistics are not modelled. *)

From stdpp Require Import gmap strings list pretty sorting.
From Stdlib Require Import Ascii Lia.

Local Open Scope nat_scope.

(** ** Python values, exceptions and outcomes *)

(** The objects that travel through the multiprocessing queue, and the
    return value [None] of a procedure. *)
#[warnings="-register-all"]
Inductive pyobj : Type :=
  | PyNone
  | PyInt (z : Z)
  | PyStr (s : string)
  | PyList (items : list pyobj).

(** The [ValueError]s of the program, told apart by their message. *)
Inductive value_error : Type :=
  | NotInGroupsOf3                      (* '*** Cache file format error, not in groups of 3 lines ***' *)
  | DateNotYYYYMMDD (line_number : nat) (* '*** Cache file format, date not YYYYMMDD, line %d ***' *)
  | NotInCache (request_url : string)   (* 'RxNAV data NOT In cache for [%s]' *)
  | UnpackMismatch (len : nat).         (* 'not enough / too many values to unpack' *)

Inductive exn : Type :=
  | ValueError (e : value_error)
  | JSONDecodeError        (* json.loads on a text that is not JSON *)
  | ConnectionError        (* raise ConnectionError: no response after max retries *)
  | IndexError             (* list index out of range *)
  | TypeError              (* str + non-str *)
  | AttributeError         (* method call on None *)
  | ZeroDivisionError
  | UnsupportedOperation.  (* write on a file opened with mode 'r' *)

Inductive outcome (A : Type) : Type :=
  | Return (a : A)
  | Raise (e : exn).
Arguments Return {A} a.
Arguments Raise {A} e.

(** The two spec-level error classes that are [ValueError]s in the code. *)
Definition CacheFormatError (e : exn) : Prop :=
  e = ValueError NotInGroupsOf3 ∨ ∃ n, e = ValueError (DateNotYYYYMMDD n).

Definition NotCached (request_url : string) : exn :=
  ValueError (NotInCache request_url).

(** ** Strings *)

Definition LF : ascii := "010"%char.
Definition CR : ascii := "013"%char.

Definition is_LF (c : ascii) : bool := Ascii.eqb c LF.
Definition is_CR (c : ascii) : bool := Ascii.eqb c CR.

(** [s.rstrip(c)]: drop every trailing occurrence of [c]. *)
Fixpoint rstrip (c : ascii) (s : string) : string :=
  match s with
  | EmptyString => EmptyString
  | String a t =>
      match rstrip c t with
      | EmptyString => if Ascii.eqb a c then EmptyString else String a EmptyString
      | t' => String a t'
      end
  end.

(** [def chomp(s): return s.rstrip('\n').rstrip('\r')] *)
Definition chomp (s : string) : string := rstrip CR (rstrip LF s).

(** [s[n:]] *)
Fixpoint string_drop (n : nat) (s : string) : string :=
  match n, s with
  | 0, _ => s
  | S n', EmptyString => EmptyString
  | S n', String _ t => string_drop n' t
  end.

(** A string free of line breaks (neither LF nor CR occurs in it). *)
Fixpoint no_break (s : string) : bool :=
  match s with
  | EmptyString => true
  | String a t => negb (is_LF a) && negb (is_CR a) && no_break t
  end.

(** The string ends with LF. *)
Fixpoint ends_LF (s : string) : bool :=
  match s with
  | EmptyString => false
  | String a EmptyString => is_LF a
  | String _ t => ends_LF t
  end.

(** ** The text file object *)

(** One line read from the head of [s], universal newlines: the line as
    Python returns it and the number of characters consumed.  At end of
    file the line is empty and nothing is consumed. *)
Fixpoint read_line (s : string) : string * nat :=
  match s with
  | EmptyString => (EmptyString, 0)
  | String a t =>
      if is_LF a then (String LF EmptyString, 1)
      else if is_CR a then
        match t with
        | String b _ => if is_LF b then (String LF EmptyString, 2)
                        else (String LF EmptyString, 1)
        | EmptyString => (String LF EmptyString, 1)
        end
      else let '(l, n) := read_line t in (String a l, S n)
  end.

(** [io.open(cache_filename, 'r' | 'a+', encoding='utf-8')]: the characters
    of the file, the position of the handle and whether the mode allows
    writing. *)
Record text_file : Type := TextFile {
  content : string;
  pos : nat;
  writable : bool
}.

Definition tell (f : text_file) : nat := pos f.

Definition seek (p : nat) (f : text_file) : text_file :=
  {| content := content f; pos := p; writable := writable f |}.

(** [f.seek(0, 2)] *)
Definition seek_end (f : text_file) : text_file :=
  seek (String.length (content f)) f.

Definition readline (f : text_file) : string * text_file :=
  let '(l, n) := read_line (string_drop (pos f) (content f)) in
  (l, seek (pos f + n) f).

(** [print(s, file=f)] on a handle in mode 'a+': the text and a newline go
    to the end of the file, wherever the handle was, and the handle is left
    at the new end.  In mode 'r' the write raises. *)
Definition print_to (s : string) (f : text_file) : outcome unit * text_file :=
  if writable f then
    let c := content f +:+ s +:+ String LF EmptyString in
    (Return tt, {| content := c; pos := String.length c; writable := true |})
  else (Raise UnsupportedOperation, f).

(** ** The cache index and [load_existing_cache] *)

Abbreviation cache_index := (gmap string (nat * string)).

(** The [while True] loop of [load_existing_cache]; [fuel] bounds the
    number of iterations, [None] is fuel exhausted. *)
Fixpoint load_loop (fuel : nat) (f : text_file) (rxnav_cache : cache_index)
    (line_number : nat) : option (outcome cache_index * text_file) :=
  match fuel with
  | 0 => None
  | S fuel' =>
      let file_position_of_cache_entry := tell f in
      let '(x1, f) := readline f in
      let '(x2, f) := readline f in
      let '(x3, f) := readline f in
      let rawlines := filter (λ x, 0 < String.length x) [x1; x2; x3] in
      match rawlines with
      | [] => Some (Return rxnav_cache, f)
      | [l1; l2; _] =>
          let line_number := line_number + 3 in
          let rest_api_url := chomp l1 in
          let data_date := chomp l2 in
          if bool_decide (String.length data_date ≠ 8)
          then Some (Raise (ValueError (DateNotYYYYMMDD (line_number - 1))), f)
          else load_loop fuel' f
                 (<[rest_api_url := (file_position_of_cache_entry, data_date)]> rxnav_cache)
                 line_number
      | _ => Some (Raise (ValueError NotInGroupsOf3), f)
      end
  end.

(** [load_existing_cache]: rewind, then scan.  Every iteration that goes on
    consumes at least three characters, so the length of the file is fuel
    enough (see [load_loop_scan]). *)
Definition load_existing_cache (f : text_file) (rxnav_cache : cache_index)
  : option (outcome cache_index * text_file) :=
  load_loop (S (String.length (content f))) (seek 0 f) rxnav_cache 0.

(** ** The class [rxnav_rest_api_mp] *)

Record rxnav_rest_api_mp : Type := RxNav {
  readonly_access_to_cache : bool;
  forward_result_to_cache_writer : bool;
  fail_if_not_in_cache : bool;
  use_caching : bool;
  rxnav_cache : cache_index;               (* REST API url => (file position, data date) *)
  rxnav_cache_file : option text_file;     (* None when cache_filename is None *)
  rxnav_cache_file_at_EOF : bool;
  rxnav_cache_hits : nat;
  request_count : nat;
  rxnav_request_count : nat
}.

Definition set_cache (c : cache_index) (self : rxnav_rest_api_mp) : rxnav_rest_api_mp :=
  RxNav (readonly_access_to_cache self) (forward_result_to_cache_writer self)
        (fail_if_not_in_cache self) (use_caching self) c (rxnav_cache_file self)
        (rxnav_cache_file_at_EOF self) (rxnav_cache_hits self) (request_count self)
        (rxnav_request_count self).

Definition set_file (f : text_file) (at_EOF : bool) (self : rxnav_rest_api_mp)
  : rxnav_rest_api_mp :=
  RxNav (readonly_access_to_cache self) (forward_result_to_cache_writer self)
        (fail_if_not_in_cache self) (use_caching self) (rxnav_cache self) (Some f)
        at_EOF (rxnav_cache_hits self) (request_count self) (rxnav_request_count self).

Definition count_request (self : rxnav_rest_api_mp) : rxnav_rest_api_mp :=
  RxNav (readonly_access_to_cache self) (forward_result_to_cache_writer self)
        (fail_if_not_in_cache self) (use_caching self) (rxnav_cache self)
        (rxnav_cache_file self) (rxnav_cache_file_at_EOF self) (rxnav_cache_hits self)
        (S (request_count self)) (rxnav_request_count self).

Definition count_cache_hit (self : rxnav_rest_api_mp) : rxnav_rest_api_mp :=
  RxNav (readonly_access_to_cache self) (forward_result_to_cache_writer self)
        (fail_if_not_in_cache self) (use_caching self) (rxnav_cache self)
        (rxnav_cache_file self) (rxnav_cache_file_at_EOF self) (S (rxnav_cache_hits self))
        (request_count self) (rxnav_request_count self).

Definition count_rxnav_request (self : rxnav_rest_api_mp) : rxnav_rest_api_mp :=
  RxNav (readonly_access_to_cache self) (forward_result_to_cache_writer self)
        (fail_if_not_in_cache self) (use_caching self) (rxnav_cache self)
        (rxnav_cache_file self) (rxnav_cache_file_at_EOF self) (rxnav_cache_hits self)
        (request_count self) (S (rxnav_request_count self)).

(** The constructor [__init__].  [cache_filename] is [None] or the characters of the
    (existing) file of that name; the handle is opened 'r' or 'a+'. *)
Definition __init__ (cache_filename : option string)
    (readonly_access forward_result fail_if_not_cached : bool)
  : option (outcome rxnav_rest_api_mp) :=
  match cache_filename with
  | Some chars =>
      let f := TextFile chars 0 (negb readonly_access) in
      match load_existing_cache f ∅ with
      | None => None
      | Some (Raise e, _) => Some (Raise e)
      | Some (Return rxnav_cache, f) =>
          Some (Return (RxNav readonly_access forward_result fail_if_not_cached
                              true rxnav_cache (Some f) true 0 0 0))
      end
  | None =>
      Some (Return (RxNav readonly_access forward_result fail_if_not_cached
                          false ∅ None true 0 0 0))
  end.

(** [write_cache_entry].  [data_date] is what
    ['{:%Y%m%d}'.format(datetime.datetime.now())] gives at the call.  The
    arguments are Python objects: the concatenation with ['\n'] raises
    [TypeError] unless both are strings.  The procedure has no [return]
    statement: its value is [None]. *)
Definition write_cache_entry (data_date : string) (request_url json_string : pyobj)
    (self : rxnav_rest_api_mp) : outcome pyobj * rxnav_rest_api_mp :=
  match rxnav_cache_file self with
  | None => (Raise AttributeError, self)
  | Some f =>
      let f := if rxnav_cache_file_at_EOF self then f else seek_end f in
      let self := set_file f true self in
      let file_position := tell f in
      match request_url, json_string with
      | PyStr url, PyStr json =>
          match print_to (url +:+ String LF (data_date +:+ String LF json)) f with
          | (Raise e, f) => (Raise e, set_file f true self)
          | (Return _, f) =>
              (Return PyNone,
               set_cache (<[url := (file_position, data_date)]> (rxnav_cache self))
                         (set_file f true self))
          end
      | _, _ => (Raise TypeError, self)
      end
  end.

(** The process-local view of what [get_rxnav_data] touches: the object,
    the messages this process has put on [cache_writer_queue] (oldest
    first) and the number of [requests.get] calls issued so far. *)
Record world : Type := World {
  self_of : rxnav_rest_api_mp;
  cache_writer_queue : list pyobj;
  requests_issued : nat
}.

Definition retry_limit : nat := 40.

(** What an observer of a worker process sees, in order. *)
Inductive event : Type :=
  | LogOpened             (* io.open(log_filename, 'w') *)
  | CacheSnapshotLoaded   (* the constructor returned: the snapshot is loaded *)
  | BarrierWait           (* barrier.wait() *)
  | LogClosed.            (* logfile.close(): the task is done *)

Section Client.

(** [json.loads]: [None] when the text is not JSON. *)
Variable Json : Type.
Variable json_loads : string → option Json.

(** The remote service: the answer to the [i]-th [requests.get] call of
    the process, [Some r.text] or [None] for a [RequestException]. *)
Variable requests_get : nat → string → option string.

Definition loads (json_text : string) : outcome Json :=
  match json_loads json_text with
  | Some d => Return d
  | None => Raise JSONDecodeError
  end.

(** [for idx in range(retry_limit): try: r = requests.get(..); break
    except RequestException: ...; time.sleep(15)] *)
Fixpoint retry_loop (attempts : nat) (request_url : string) (issued : nat)
  : option string * nat :=
  match attempts with
  | 0 => (None, issued)
  | S attempts' =>
      match requests_get issued request_url with
      | Some text => (Some text, S issued)
      | None => retry_loop attempts' request_url (S issued)
      end
  end.

Definition get_rxnav_data (request_url : string) (w : world) : outcome Json * world :=
  let self := count_request (self_of w) in
  let hit := if use_caching self then rxnav_cache self !! request_url else None in
  match hit with
  | Some (file_position_of_cache_entry, _) =>
      let self := count_cache_hit self in
      match rxnav_cache_file self with
      | None => (Raise AttributeError,
                 World self (cache_writer_queue w) (requests_issued w))
      | Some f =>
          let f := seek file_position_of_cache_entry f in
          let '(_, f) := readline f in
          let '(_, f) := readline f in
          let '(l, f) := readline f in
          let json_text := chomp l in
          (loads json_text,
           World (set_file f false self) (cache_writer_queue w) (requests_issued w))
      end
  | None =>
      if fail_if_not_in_cache self
      then (Raise (NotCached request_url),
            World self (cache_writer_queue w) (requests_issued w))
      else
        let '(r, issued) := retry_loop retry_limit request_url (requests_issued w) in
        match r with
        | None => (Raise ConnectionError, World self (cache_writer_queue w) issued)
        | Some text =>
            match json_loads text with
            | None => (Raise JSONDecodeError, World self (cache_writer_queue w) issued)
            | Some result =>
                let self := count_rxnav_request self in
                let queue :=
                  if forward_result_to_cache_writer self
                  then cache_writer_queue w ++ [PyList [PyStr request_url; PyStr text]]
                  else cache_writer_queue w in
                (Return result, World self queue issued)
            end
        end
  end.

Definition get_allrelated (rxcui : Z) : world → outcome Json * world :=
  get_rxnav_data ("https://rxnav.nlm.nih.gov/REST/rxcui/" +:+ pretty rxcui
                  +:+ "/allrelated.json").

Definition get_historical_rxcui (rxcui : Z) : world → outcome Json * world :=
  get_rxnav_data ("https://rxnav.nlm.nih.gov/REST/rxcuihistory/concept.json?rxcui="
                  +:+ pretty rxcui).

(** The part of [get_ndc_codes_for_drug] that walks the decoded answer
    is a parameter: it may raise on an answer of unexpected shape. *)
Variable ndc_codes_of : Json → outcome (list string).

Definition get_ndc_codes_for_drug (drug_rxcui : Z) (w : world)
  : outcome (list string) * world :=
  match get_rxnav_data ("https://rxnav.nlm.nih.gov/REST/rxcui/" +:+ pretty drug_rxcui
                        +:+ "/allhistoricalndcs/json") w with
  | (Return d, w) => (ndc_codes_of d, w)
  | (Raise e, w) => (Raise e, w)
  end.

(** *** Worker tasks *)

(** The body of [for idx, rxcui in enumerate(rxcui_code_list)] of
    [worker_task_rxcuis]. *)
Fixpoint rxcuis_loop (codes : list Z) (w : world) : outcome unit * world :=
  match codes with
  | [] => (Return tt, w)
  | rxcui :: rest =>
      match get_allrelated rxcui w with
      | (Raise e, w) => (Raise e, w)
      | (Return _, w) =>
          match get_historical_rxcui rxcui w with
          | (Raise e, w) => (Raise e, w)
          | (Return _, w) => rxcuis_loop rest w
          end
      end
  end.

Fixpoint ndcs_loop (codes : list Z) (w : world) : outcome unit * world :=
  match codes with
  | [] => (Return tt, w)
  | rxcui :: rest =>
      match get_ndc_codes_for_drug rxcui w with
      | (Raise e, w) => (Raise e, w)
      | (Return _, w) => ndcs_loop rest w
      end
  end.

(** A worker process: the header line of the log needs
    [rxcui_code_list[0]] and [rxcui_code_list[-1]]; then the object is
    built (which loads the snapshot), then the barrier, then the loop.
    The result is the outcome, the events in order and the messages
    put on the queue. *)
Definition worker_task (loop : list Z → world → outcome unit * world)
    (cache_filename : option string) (code_list : list Z)
  : option (outcome unit * list event * list pyobj) :=
  match head code_list, last code_list with
  | Some _, Some _ =>
      match __init__ cache_filename true true false with
      | None => None
      | Some (Raise e) => Some (Raise e, [LogOpened], [])
      | Some (Return rxnav) =>
          match loop code_list (World rxnav [] 0) with
          | (Raise e, w) =>
              Some (Raise e, [LogOpened; CacheSnapshotLoaded; BarrierWait],
                    cache_writer_queue w)
          | (Return _, w) =>
              Some (Return tt, [LogOpened; CacheSnapshotLoaded; BarrierWait; LogClosed],
                    cache_writer_queue w)
          end
      end
  | _, _ => Some (Raise IndexError, [LogOpened], [])
  end.

Definition worker_task_rxcuis := worker_task rxcuis_loop.
Definition worker_task_ndcs := worker_task ndcs_loop.

End Client.

Arguments loads {Json} json_loads json_text.
Arguments retry_loop requests_get attempts request_url issued : simpl never.
Arguments get_rxnav_data {Json} json_loads requests_get request_url w.
Arguments get_allrelated {Json} json_loads requests_get rxcui w.
Arguments get_historical_rxcui {Json} json_loads requests_get rxcui w.
Arguments get_ndc_codes_for_drug {Json} json_loads requests_get ndc_codes_of drug_rxcui w.
Arguments rxcuis_loop {Json} json_loads requests_get codes w.
Arguments ndcs_loop {Json} json_loads requests_get ndc_codes_of codes w.
Arguments worker_task_rxcuis {Json} json_loads requests_get cache_filename code_list.
Arguments worker_task_ndcs {Json} json_loads requests_get ndc_codes_of cache_filename code_list.

(** ** The cache writer task *)

(** How the [while True] loop of [cache_writer_task] stands once the
    messages at hand are used up: left by [break], or blocked in
    [mp_queue.get()]. *)
Inductive loop_exit : Type :=
  | Killed
  | AwaitingMessage.

(** The loop, run on the messages that arrive, oldest first.  [now count]
    is the date at the time the message after [count] writes is handled. *)
Fixpoint cache_writer_loop (now : nat → string) (messages : list pyobj) (count : nat)
    (rxnav : rxnav_rest_api_mp) : outcome loop_exit * nat * rxnav_rest_api_mp :=
  match messages with
  | [] => (Return AwaitingMessage, count, rxnav)
  | m :: rest =>
      match m with
      | PyList items =>                   (* isinstance(m, list) *)
          match items with
          | [request_url; json_result_string] =>
              match write_cache_entry (now count) request_url json_result_string rxnav with
              | (Return _, rxnav) => cache_writer_loop now rest (S count) rxnav
              | (Raise e, rxnav) => (Raise e, count, rxnav)
              end
          | _ => (Raise (ValueError (UnpackMismatch (length items))), count, rxnav)
          end
      | PyStr s =>
          if bool_decide (s = "kill")     (* elif m == 'kill': break *)
          then (Return Killed, count, rxnav)
          else cache_writer_loop now rest count rxnav
      | _ => cache_writer_loop now rest count rxnav
      end
  end.

Definition cache_writer_task (now : nat → string) (cache_filename : option string)
    (messages : list pyobj)
  : option (outcome loop_exit * nat * option rxnav_rest_api_mp) :=
  match __init__ cache_filename false false false with
  | None => None
  | Some (Raise e) => Some (Raise e, 0, None)
  | Some (Return rxnav) =>
      let '(r, count, rxnav) := cache_writer_loop now messages 0 rxnav in
      Some (r, count, Some rxnav)
  end.

(** ** The work partition of phase 1 and phase 2 *)

(** [math.ceil(n / float(w))] for [w > 0] (exact, the float rounding of
    the quotient is not modelled). *)
Definition ceil_div (n w : nat) : nat :=
  if n mod w =? 0 then n / w else S (n / w).

(** [l[a:b]] for [0 <= a <= b]. *)
Definition slice {A : Type} (a b : nat) (l : list A) : list A :=
  take (b - a) (drop a l).

(** The code lists handed to the workers by the creation loop of
    [phase1__get_allrelated_plus_historicalrxcui] and of
    [phase2__get_ndc_for_drugs], in worker order. *)
Definition worker_segments {A : Type} (worker_process_count : nat) (rxcui_list : list A)
  : outcome (list (list A)) :=
  if worker_process_count =? 0 then Raise ZeroDivisionError
  else
    let rxcui_segsize := ceil_div (length rxcui_list) worker_process_count in
    Return ((λ idx, slice (rxcui_segsize * idx) (rxcui_segsize * (idx + 1)) rxcui_list)
              <$> seq 0 worker_process_count).

(** ** Specification-side notions *)

(** The lines of a file, each with the offset at which it starts, as
    universal-newline reading delimits them. *)
Fixpoint lines_at (off : nat) (s : string) : list (nat * string) :=
  match s with
  | EmptyString => []
  | String a t =>
      if is_LF a then (off, String LF EmptyString) :: lines_at (S off) t
      else if is_CR a then
        match t with
        | String b t' =>
            if is_LF b then (off, String LF EmptyString) :: lines_at (S (S off)) t'
            else (off, String LF EmptyString) :: lines_at (S off) t
        | EmptyString => [(off, String LF EmptyString)]
        end
      else
        match lines_at (S off) t with
        | [] => [(off, String a EmptyString)]
        | (_, l) :: ls => (off, String a l) :: ls
        end
  end.

Definition file_lines (s : string) : list (nat * string) := lines_at 0 s.

(** A CacheRecord of the spec, with the offset that identifies it. *)
Record cache_record : Type := CacheRecord {
  rec_offset : nat;
  rec_key : string;
  rec_date : string;
  rec_payload : string
}.

(** The complete three-line groups of a list of lines. *)
Fixpoint records (ls : list (nat * string)) : list cache_record :=
  match ls with
  | (o, l1) :: (_, l2) :: (_, l3) :: rest =>
      CacheRecord o (chomp l1) (chomp l2) (chomp l3) :: records rest
  | _ => []
  end.

(** The CacheIndex of a list of records: later records win. *)
Definition index_of (rs : list cache_record) (start : cache_index) : cache_index :=
  foldl (λ m r, <[rec_key r := (rec_offset r, rec_date r)]> m) start rs.

(** Lines that decompose into records with eight-character dates. *)
Definition records_ok (ls : list (nat * string)) : Prop :=
  length ls mod 3 = 0 ∧ Forall (λ r, String.length (rec_date r) = 8) (records ls).

Definition well_formed_log (s : string) : Prop := records_ok (file_lines s).



Definition newline : string := String LF EmptyString.

(** A three-line file whose second line is not a date. *)
Definition undated_log : string :=
  "a" +:+ newline +:+ "b" +:+ newline +:+ "c" +:+ newline.

(** The scan of [load_existing_cache] as a function of the lines. *)
Fixpoint scan (ls : list (nat * string)) (c : cache_index) (line_number : nat)
  : outcome cache_index :=
  match ls with
  | [] => Return c
  | (o, l1) :: (_, l2) :: _ :: rest =>
      if bool_decide (String.length (chomp l2) ≠ 8)
      then Raise (ValueError (DateNotYYYYMMDD (line_number + 3 - 1)))
      else scan rest (<[chomp l1 := (o, chomp l2)]> c) (line_number + 3)
  | _ => Raise (ValueError NotInGroupsOf3)
  end.

(** The position of a handle is within its file. *)
Definition in_file (f : text_file) : Prop := pos f ≤ String.length (content f).

(** What is left to read, and its lines. *)
Definition remaining (f : text_file) : string := string_drop (pos f) (content f).
Definition lines_ahead (f : text_file) : list (nat * string) := lines_at (pos f) (remaining f).

(** The representation invariant of the object: the flag
    [rxnav_cache_file_at_EOF] tells the truth, and there is a file exactly
    when caching is on. *)
Definition holder_ok (self : rxnav_rest_api_mp) : Prop :=
  match rxnav_cache_file self with
  | Some f =>
      use_caching self = true ∧
      (rxnav_cache_file_at_EOF self = true → pos f = String.length (content f))
  | None => use_caching self = false ∧ rxnav_cache self = ∅
  end.

(** The characters of the cache file of an object (none without a file). *)
Definition file_chars (self : rxnav_rest_api_mp) : string :=
  match rxnav_cache_file self with
  | Some f => content f
  | None => EmptyString
  end.

(** The three lines of a record, as [write_cache_entry] prints them. *)
Definition record_text (key data_date payload : string) : string :=
  key +:+ newline +:+ data_date +:+ newline +:+ payload +:+ newline.

(** "[write_cache_entry] returns the offset at which the record began". *)
Definition returns_record_offset (data_date key payload : string)
    (self : rxnav_rest_api_mp) : Prop :=
  fst (write_cache_entry data_date (PyStr key) (PyStr payload) self)
  = Return (PyInt (Z.of_nat (String.length (file_chars self)))).

(** The Cache Writer's object right after its construction on an empty
    cache file. *)
Definition fresh_writer : rxnav_rest_api_mp :=
  RxNav false false false true ∅ (Some (TextFile EmptyString 0 true)) true 0 0 0.

(** The [i]-th line ahead of offset [p] in a file, empty when there is
    none. *)
Definition line_from (chars : string) (p i : nat) : string :=
  match lines_at p (string_drop p chars) !! i with
  | Some (_, l) => l
  | None => EmptyString
  end.

(** The cache hit test of [get_rxnav_data]. *)
Definition cached (self : rxnav_rest_api_mp) (request_url : string) : option (nat * string) :=
  if use_caching self then rxnav_cache self !! request_url else None.

(** A worker's object with one cached answer, and a writer-side remote that
    fails twice before it answers. *)
Definition one_entry_log : string := record_text "u" "20180816" "{}".

Definition one_entry_holder (readonly forward strict : bool) : rxnav_rest_api_mp :=
  RxNav readonly forward strict true {[ "u" := (0, "20180816") ]}
        (Some (TextFile one_entry_log (String.length one_entry_log) (negb readonly)))
        true 0 0 0.

Definition flaky_remote (i : nat) (request_url : string) : option string :=
  if i <? 2 then None else Some "{}".

Definition dead_remote (i : nat) (request_url : string) : option string := None.

(** Round trip at one input: a writer started on the cache file [chars]
    appends the record, a fresh read-only process loads the file that
    results, and its lookup of the key yields the decoded payload. *)
Definition round_trip {Json : Type} (json_loads : string → option Json)
    (requests_get : nat → string → option string)
    (chars key data_date payload : string) : Prop :=
  ∃ writer writer' reader,
    __init__ (Some chars) false false false = Some (Return writer) ∧
    write_cache_entry data_date (PyStr key) (PyStr payload) writer = (Return PyNone, writer') ∧
    __init__ (Some (file_chars writer')) true false true = Some (Return reader) ∧
    fst (get_rxnav_data json_loads requests_get key (World reader [] 0))
    = loads json_loads payload.

(** A JSON text laid out on two lines. *)
Definition two_line_json : string := "{" +:+ newline +:+ "}".

(** "Every segment but the last has size exactly [ceil(n/workerCount)]". *)
Definition all_but_last_full {A : Type} (worker_process_count : nat) (rxcui_list : list A)
  : Prop :=
  ∀ segs i seg,
    worker_segments worker_process_count rxcui_list = Return segs →
    S i < length segs → segs !! i = Some seg →
    length seg = ceil_div (length rxcui_list) worker_process_count.

(** "A message of any other shape is fatal to the cache writer". *)
Definition fatal_to_writer (now : nat → string) (m : pyobj) (rxnav : rxnav_rest_api_mp)
  : Prop :=
  ∀ rest count, ∃ e count' rxnav',
    cache_writer_loop now (m :: rest) count rxnav = (Raise e, count', rxnav').

(** The two shapes the cache writer acts on. *)
Definition is_cache_write (m : pyobj) : Prop :=
  ∃ key payload, m = PyList [PyStr key; PyStr payload].

Definition is_list (m : pyobj) : Prop := ∃ items, m = PyList items.

Definition always_20180816 (count : nat) : string := "20180816".

Definition strict_world : world := World (one_entry_holder true true true) [] 0.

(** ** Further notions: cache keys, outcomes, writer health *)

(** The request keys of the three per-code operations:
    ['.../REST/rxcui/%s/allrelated.json' % rxcui],
    ['.../REST/rxcuihistory/concept.json?rxcui=%s' % rxcui] and
    ['.../REST/rxcui/%d/allhistoricalndcs/json' % drug_rxcui]. *)
Definition allrelated_url (rxcui : Z) : string :=
  "https://rxnav.nlm.nih.gov/REST/rxcui/" +:+ pretty rxcui +:+ "/allrelated.json".

Definition history_url (rxcui : Z) : string :=
  "https://rxnav.nlm.nih.gov/REST/rxcuihistory/concept.json?rxcui=" +:+ pretty rxcui.

Definition ndcs_url (drug_rxcui : Z) : string :=
  "https://rxnav.nlm.nih.gov/REST/rxcui/" +:+ pretty drug_rxcui +:+ "/allhistoricalndcs/json".

(** The call came back with a value. *)
Definition returned {A : Type} (r : outcome A) : bool :=
  match r with
  | Return _ => true
  | Raise _ => false
  end.

(** The message a worker forwards for a fetched answer. *)
Definition cache_write (request_url text : string) : pyobj :=
  PyList [PyStr request_url; PyStr text].

(** A log the writer can go on appending to: well formed, and empty or
    closed by a newline. *)
Definition clean_log (chars : string) : Prop :=
  well_formed_log chars ∧ (chars = EmptyString ∨ ends_LF chars = true).

(** The index of the object is the one a fresh process would load from
    the file as it stands. *)
Definition in_sync (rxnav : rxnav_rest_api_mp) : Prop :=
  ∃ reader, __init__ (Some (file_chars rxnav)) true false false = Some (Return reader) ∧
            rxnav_cache reader = rxnav_cache rxnav.

(** The object of a cache writer in working order. *)
Definition writer_ok (rxnav : rxnav_rest_api_mp) : Prop :=
  (∃ f, rxnav_cache_file rxnav = Some f ∧ writable f = true ∧
        (rxnav_cache_file_at_EOF rxnav = true → pos f = String.length (content f))) ∧
  clean_log (file_chars rxnav) ∧ in_sync rxnav.

(** A date as the clock formats it. *)
Definition date8 (d : string) : Prop := no_break d = true ∧ String.length d = 8.

(** The messages a worker can send for one-line keys and texts, and the
    messages that are no lists. *)
Definition one_line_write (m : pyobj) : Prop :=
  ∃ key text, m = cache_write key text ∧ no_break key = true ∧ no_break text = true.

Definition writer_input_ok (m : pyobj) : Prop := one_line_write m ∨ ¬ is_list m.

(** The text that a run of cache writes adds to the file, the first one
    dated [now count]. *)
Fixpoint written (now : nat → string) (count : nat) (kps : list (string * string)) : string :=
  match kps with
  | [] => EmptyString
  | (key, text) :: rest => record_text key (now count) text +:+ written now (S count) rest
  end.

(** The messages the loop of the cache writer acts on: lists and ['kill']. *)
Definition acted_on (m : pyobj) : bool :=
  match m with
  | PyList _ => true
  | PyStr s => bool_decide (s = "kill")
  | _ => false
  end.

(** The request keys of a worker's segment, in the order in which the
    loop asks for them. *)
Definition rxcui_keys (codes : list Z) : list string :=
  codes ≫= λ rxcui, [allrelated_url rxcui; history_url rxcui].

Definition ndc_keys (codes : list Z) : list string := ndcs_url <$> codes.

(** The key of a cache-write message. *)
Definition message_key (m : pyobj) : option string :=
  match m with
  | PyList [PyStr key; _] => Some key
  | _ => None
  end.

(** A worker's process whose index holds the answers for code 211. *)
Definition replay_log : string :=
  record_text (allrelated_url 211) "20180816" "{}"
  +:+ record_text (history_url 211) "20180816" "{}"
  +:+ record_text (ndcs_url 211) "20180816" "{}".

Definition replay_index : cache_index :=
  <[ ndcs_url 211 :=
       (String.length (record_text (allrelated_url 211) "20180816" "{}")
        + String.length (record_text (history_url 211) "20180816" "{}"), "20180816") ]>
  (<[ history_url 211 :=
        (String.length (record_text (allrelated_url 211) "20180816" "{}"), "20180816") ]>
   (<[ allrelated_url 211 := (0, "20180816") ]> ∅)).

Definition replay_world : world :=
  World (RxNav true true false true replay_index
           (Some (TextFile replay_log (String.length replay_log) false)) true 0 0 0) [] 0.

(** Every character of the string passes the test. *)
Fixpoint all_chars (P : ascii → bool) (s : string) : bool :=
  match s with
  | EmptyString => true
  | String a t => P a && all_chars P t
  end.

(** A character of a decimal numeral: a digit or the minus sign. *)
Definition decimal_char (c : ascii) : bool :=
  bool_decide (c ∈ ["0"; "1"; "2"; "3"; "4"; "5"; "6"; "7"; "8"; "9"; "-"]%char).

(** The process after a series of calls of [get_rxnav_data], outcomes
    dropped. *)
Definition fetch_all {Json : Type} (json_loads : string → option Json)
    (requests_get : nat → string → option string) (urls : list string) (w : world) : world :=
  foldl (λ w request_url, (get_rxnav_data json_loads requests_get request_url w).2) w urls.

(** The handle of the object, when there is one, does not allow writing. *)
Definition read_only (self : rxnav_rest_api_mp) : Prop :=
  ∀ f, rxnav_cache_file self = Some f → writable f = false.

(** [n] copies of a character. *)
Fixpoint string_repeat (c : ascii) (n : nat) : string :=
  match n with
  | 0 => EmptyString
  | S n' => String c (string_repeat c n')
  end.

(** ** [find_positions_of_subpaths] (in [post_process]) *)






(** ** [BasicTree.traverse] *)

(** A node with its data and its children, oldest first (the tree that
    [add_node] builds has no sharing and no cycle). *)
#[warnings="-register-all"]
Inductive Node (D : Type) : Type :=
  | mkNode (data : D) (children : list (Node D)).
Arguments mkNode {D} data children.

Definition children {D : Type} (n : Node D) : list (Node D) :=
  match n with mkNode _ cs => cs end.

Fixpoint node_size {D : Type} (n : Node D) : nat :=
  match n with
  | mkNode _ cs => S ((fix total (l : list (Node D)) : nat :=
                         match l with
                         | [] => 0
                         | c :: l' => node_size c + total l'
                         end) cs)
  end.

Definition forest_size {D : Type} (q : list (Node D)) : nat :=
  foldr (λ c acc, node_size c + acc) 0 q.

(** The [while q] loop of [traverse]: the nodes yielded, in order; [None]
    when the fuel runs out. *)
Fixpoint traverse_loop {D : Type} (fuel : nat) (q : list (Node D)) (depth_first : bool)
  : option (list (Node D)) :=
  match q with
  | [] => Some []
  | q0 :: rest =>
      match fuel with
      | 0 => None
      | S fuel' =>
          let child_nodes := children q0 in
          cons q0 <$> traverse_loop fuel'
                        (if depth_first then child_nodes ++ rest else rest ++ child_nodes)
                        depth_first
      end
  end.

(** [traverse(node, depth_first)]: everything the generator yields, on a
    tree that is not changed meanwhile.  For the empty tree ([node] is
    [None]) it yields [None] once. *)
Definition traverse {D : Type} (node : option (Node D)) (depth_first : bool)
  : option (list (option (Node D))) :=
  match node with
  | None => Some [None]
  | Some n =>
      (λ out, Some n :: (Some <$> out))
        <$> traverse_loop (forest_size (children n)) (children n) depth_first
  end.

(** The nodes of a tree, every node before its children, the children
    left to right. *)
Fixpoint preorder {D : Type} (n : Node D) : list (Node D) :=
  n :: (fix over (l : list (Node D)) : list (Node D) :=
          match l with
          | [] => []
          | c :: l' => preorder c ++ over l'
          end) (children n).

Definition sample_tree : Node nat :=
  mkNode 1 [mkNode 2 [mkNode 4 []]; mkNode 3 []].

(** ** [get_historical_rxcuis] *)

Definition valid_status_values : list string :=
  ["ACTIVE"; "RETIRED"; "NON-RXNORM"; "NEVER%20ACTIVE"].

(** ['.../REST/rxcuihistory/status.json?type=%s' % status_value] *)
Definition status_url (status_value : string) : string :=
  "https://rxnav.nlm.nih.gov/REST/rxcuihistory/status.json?type=" +:+ status_value.

(** The outcome of [get_historical_rxcuis]: its own [ValueError] for
    invalid target status values, or what the run over the target values
    gave. *)
Inductive status_outcome (A : Type) : Type :=
  | InvalidTargetStatus
  | Ran (r : outcome A).
Arguments InvalidTargetStatus {A}.
Arguments Ran {A} r.

Section HistoricalRxcuis.

Variable Json : Type.
Variable json_loads : string → option Json.
Variable requests_get : nat → string → option string.

(** [[int(x) for x in d['rxcuiList']['rxcuis']]]: the walk through the
    decoded answer is a parameter, it may raise. *)
Variable rxcuis_of : Json → outcome (list Z).

(** [for status_value in target_status_values: ...]; the lines that the
    verbose mode prints to the log file of the object are left out. *)
Fixpoint historical_rxcuis_loop (statuses : list string) (rxcui_set : gset Z)
    (rxcuis_status_d : gmap Z string) (w : world)
  : outcome (gset Z * gmap Z string) * world :=
  match statuses with
  | [] => (Return (rxcui_set, rxcuis_status_d), w)
  | status_value :: rest =>
      match get_rxnav_data json_loads requests_get (status_url status_value) w with
      | (Raise e, w) => (Raise e, w)
      | (Return d, w) =>
          match rxcuis_of d with
          | Raise e => (Raise e, w)
          | Return codes =>
              let code_set : gset Z := list_to_set codes in
              historical_rxcuis_loop rest (rxcui_set ∪ code_set)
                (foldr (λ x m, <[x := status_value]> m) rxcuis_status_d (elements code_set))
                w
          end
      end
  end.

Definition get_historical_rxcuis (target_status_values : list string) (w : world)
  : status_outcome (gset Z * gmap Z string) * world :=
  let target_status_values_set : gset string := list_to_set target_status_values in
  let valid_status_values_set : gset string := list_to_set valid_status_values in
  let intersection := target_status_values_set ∩ valid_status_values_set in
  if bool_decide (size intersection ≠ size target_status_values_set)
  then (InvalidTargetStatus, w)
  else
    let '(r, w) := historical_rxcuis_loop target_status_values ∅ ∅ w in
    (Ran r, w).

End HistoricalRxcuis.

Arguments historical_rxcuis_loop {Json} json_loads requests_get rxcuis_of
  statuses rxcui_set rxcuis_status_d w.
Arguments get_historical_rxcuis {Json} json_loads requests_get rxcuis_of
  target_status_values w.

(** A remote that always answers, and a decoded answer with two codes. *)
Definition steady_remote (i : nat) (request_url : string) : option string := Some "{}".
Definition two_codes (d : string) : outcome (list Z) := Return [211; 212]%Z.

(** * Properties *)

(** ** Lemmas on strings *)

Lemma string_app_cons (x : ascii) (a b : string) :
  String x a +:+ b = String x (a +:+ b).
Proof. reflexivity. Qed.

Lemma string_app_nil (b : string) : EmptyString +:+ b = b.
Proof. reflexivity. Qed.

Lemma string_drop_empty n : string_drop n EmptyString = EmptyString.
Proof. by destruct n. Qed.

Lemma string_drop_add a b s :
  string_drop (a + b) s = string_drop b (string_drop a s).
Proof.
  revert s. induction a as [|a IH]; intros s; simpl; [done|].
  destruct s; simpl; [by rewrite string_drop_empty | apply IH].
Qed.

Lemma string_length_app (a b : string) :
  String.length (a +:+ b) = String.length a + String.length b.
Proof. induction a as [|c a IH]; simpl; [done | by rewrite IH]. Qed.

Lemma string_drop_app_length (a b : string) :
  string_drop (String.length a) (a +:+ b) = b.
Proof. induction a as [|c a IH]; simpl; [by destruct b | done]. Qed.

Lemma string_drop_all s n :
  String.length s ≤ n → string_drop n s = EmptyString.
Proof.
  revert n. induction s as [|c s IH]; intros n Hn.
  - apply string_drop_empty.
  - destruct n; simpl in *; [lia | apply IH; lia].
Qed.

Lemma string_drop_length s n :
  String.length (string_drop n s) = String.length s - n.
Proof.
  revert n. induction s as [|c s IH]; intros n.
  - by rewrite string_drop_empty.
  - destruct n; simpl; [done | apply IH].
Qed.

Lemma string_app_assoc (a b c : string) : (a +:+ b) +:+ c = a +:+ (b +:+ c).
Proof. induction a as [|x a IH]; [done | by rewrite !string_app_cons, IH]. Qed.

(** Appends to the right, conses to the front. *)
Ltac string_norm :=
  repeat (rewrite string_app_assoc || rewrite string_app_cons || rewrite string_app_nil).

Lemma string_app_empty_r (a : string) : a +:+ EmptyString = a.
Proof. induction a as [|x a IH]; [done | by rewrite !string_app_cons, IH]. Qed.

(** ** [read_line] against the lines of the file *)

Lemma read_line_lines s off :
  s ≠ EmptyString →
  ∃ l n, read_line s = (l, n) ∧ 0 < String.length l ∧ 0 < n ∧ n ≤ String.length s ∧
         lines_at off s = (off, l) :: lines_at (off + n) (string_drop n s).
Proof.
  revert off. induction s as [|a t IH]; intros off Hne; [done|].
  simpl. destruct (is_LF a) eqn:Ha.
  { exists (String LF EmptyString), 1. simpl.
    replace (off + 1) with (S off) by lia. repeat split; lia. }
  destruct (is_CR a) eqn:Hb.
  { destruct t as [|b t'].
    - exists (String LF EmptyString), 1. simpl.
      repeat split; lia.
    - destruct (is_LF b) eqn:Hc.
      + exists (String LF EmptyString), 2. simpl.
        replace (off + 2) with (S (S off)) by lia. repeat split; lia.
      + exists (String LF EmptyString), 1. simpl.
        replace (off + 1) with (S off) by lia. repeat split; lia. }
  destruct t as [|b t'].
  { exists (String a EmptyString), 1. simpl. repeat split; lia. }
  destruct (IH (S off)) as (l & n & Hr & Hl & Hn & Hle & Hlines); [done|].
  rewrite Hr, Hlines. exists (String a l), (S n).
  replace (off + S n) with (S off + n) by lia.
  simpl in *. repeat split; lia.
Qed.

Lemma lines_at_nil off s : lines_at off s = [] → s = EmptyString.
Proof.
  intros H. destruct s as [|a t]; [done|].
  destruct (read_line_lines (String a t) off) as (l & n & _ & _ & _ & _ & Hl); [done|].
  by rewrite Hl in H.
Qed.

Lemma lines_at_length s : ∀ off, length (lines_at off s) ≤ String.length s.
Proof.
  remember (String.length s) as k eqn:Hk.
  assert (Hle : String.length s ≤ k) by lia. clear Hk. revert s Hle.
  induction k as [|k IH]; intros s Hle off.
  { destruct s; simpl in *; lia. }
  destruct s as [|a t]; [simpl; lia|].
  destruct (read_line_lines (String a t) off) as (l & n & _ & _ & Hn & Hn' & Hl); [done|].
  rewrite Hl. simpl length at 1.
  specialize (IH (string_drop n (String a t))).
  rewrite string_drop_length in IH.
  specialize (IH ltac:(simpl in *; lia) (off + n)).
  simpl in *. lia.
Qed.

(** ** [readline] on a handle *)

Lemma seek_pos_id f : seek (pos f + 0) f = f.
Proof. destruct f. unfold seek. simpl. by rewrite Nat.add_0_r. Qed.

Lemma readline_ahead f :
  in_file f →
  match lines_ahead f with
  | [] => readline f = (EmptyString, f) ∧ pos f = String.length (content f)
  | (o, l) :: rest =>
      ∃ f', readline f = (l, f') ∧ o = pos f ∧ 0 < String.length l ∧ in_file f' ∧
            content f' = content f ∧ writable f' = writable f ∧ lines_ahead f' = rest
  end.
Proof.
  intros Hin. unfold lines_ahead, readline, remaining, in_file in *.
  destruct (string_drop (pos f) (content f)) as [|a t] eqn:Hd.
  - simpl. rewrite seek_pos_id. split; [done|].
    pose proof (string_drop_length (content f) (pos f)) as Hlen.
    rewrite Hd in Hlen. simpl in Hlen. lia.
  - destruct (read_line_lines (String a t) (pos f)) as (l & n & Hr & Hl & Hn & Hle & Hlines);
      [done|].
    rewrite Hlines, Hr. eexists. split; [done|]. simpl.
    pose proof (string_drop_length (content f) (pos f)) as Hlen.
    rewrite Hd in Hlen.
    repeat split; try done; try lia.
    by rewrite string_drop_add, Hd.
Qed.

(** ** The loading loop computes [scan] and always has enough fuel *)

Lemma filter_nonempty_cons (l : string) (ls : list string) :
  0 < String.length l →
  filter (λ x, 0 < String.length x) (l :: ls) = l :: filter (λ x, 0 < String.length x) ls.
Proof. intros H. by rewrite filter_cons_True. Qed.

Lemma filter_empty_cons (ls : list string) :
  filter (λ x, 0 < String.length x) (EmptyString :: ls)
  = filter (λ x, 0 < String.length x) ls.
Proof. rewrite filter_cons_False; [done | simpl; lia]. Qed.

Lemma load_loop_scan fuel : ∀ f c ln,
  in_file f → length (lines_ahead f) < fuel →
  ∃ f', load_loop fuel f c ln = Some (scan (lines_ahead f) c ln, f') ∧
        content f' = content f ∧ writable f' = writable f ∧
        (∀ idx, scan (lines_ahead f) c ln = Return idx →
                pos f' = String.length (content f)).
Proof.
  induction fuel as [|fuel IH]; intros f c ln Hin Hfuel; [lia|].
  cbn [load_loop]. unfold tell.
  pose proof (readline_ahead f Hin) as H1.
  destruct (lines_ahead f) as [|[o1 l1] ls1] eqn:E1.
  { destruct H1 as [H1 Hp]. rewrite !H1. rewrite !filter_empty_cons.
    exists f. simpl. eauto. }
  destruct H1 as (f1 & H1 & -> & Hl1 & Hin1 & Hc1 & Hw1 & Ha1).
  rewrite H1.
  pose proof (readline_ahead f1 Hin1) as H2. rewrite Ha1 in H2.
  destruct ls1 as [|[o2 l2] ls2].
  { destruct H2 as [H2 Hp]. rewrite !H2.
    rewrite filter_nonempty_cons, !filter_empty_cons by done.
    exists f1. simpl. repeat split; try done. }
  destruct H2 as (f2 & H2 & -> & Hl2 & Hin2 & Hc2 & Hw2 & Ha2).
  rewrite H2.
  pose proof (readline_ahead f2 Hin2) as H3. rewrite Ha2 in H3.
  destruct ls2 as [|[o3 l3] ls3].
  { destruct H3 as [H3 Hp]. rewrite !H3.
    rewrite !filter_nonempty_cons, !filter_empty_cons by done.
    exists f2. simpl. repeat split; try congruence. }
  destruct H3 as (f3 & H3 & -> & Hl3 & Hin3 & Hc3 & Hw3 & Ha3).
  rewrite H3. rewrite !filter_nonempty_cons by done.
  rewrite filter_nil. cbn [scan].
  destruct (bool_decide (String.length (chomp l2) ≠ 8)) eqn:Hd.
  { exists f3. repeat split; try congruence. }
  destruct (IH f3 (<[chomp l1 := (pos f, chomp l2)]> c) (ln + 3) Hin3) as (f' & Hl & Hc & Hw & Hp).
  { rewrite Ha3. simpl in Hfuel. lia. }
  rewrite Ha3 in Hl, Hp.
  exists f'. rewrite Hl. repeat split; try congruence.
  intros idx Hidx. rewrite (Hp idx Hidx). congruence.
Qed.

Lemma load_existing_cache_scan f c :
  ∃ f', load_existing_cache f c = Some (scan (file_lines (content f)) c 0, f') ∧
        content f' = content f ∧ writable f' = writable f ∧
        (∀ idx, scan (file_lines (content f)) c 0 = Return idx →
                pos f' = String.length (content f)).
Proof.
  unfold load_existing_cache.
  destruct (load_loop_scan (S (String.length (content f))) (seek 0 f) c 0)
    as (f' & H & Hc & Hw & Hp).
  - unfold in_file. simpl. lia.
  - unfold lines_ahead, remaining. simpl.
    pose proof (lines_at_length (content f) 0). lia.
  - exists f'. unfold lines_ahead, remaining in *. simpl in *. eauto.
Qed.

(** ** [scan] against the records of the file *)

Lemma list_ind3 {A : Type} (P : list A → Prop) :
  P [] → (∀ a, P [a]) → (∀ a b, P [a; b]) →
  (∀ a b c l, P l → P (a :: b :: c :: l)) →
  ∀ l, P l.
Proof.
  intros H0 H1 H2 H3 l.
  remember (length l) as k eqn:Hk.
  assert (Hle : length l ≤ k) by lia. clear Hk. revert l Hle.
  induction k as [|k IH]; intros l Hle.
  { destruct l; simpl in *; [done | lia]. }
  destruct l as [|a [|b [|c l]]]; auto.
  apply H3, IH. simpl in *. lia.
Qed.

Lemma mod3_SSS n : S (S (S n)) mod 3 = n mod 3.
Proof.
  replace (S (S (S n))) with (n + 1 * 3) by lia.
  apply Nat.Div0.mod_add.
Qed.

Lemma scan_records ls : ∀ c ln,
  match scan ls c ln with
  | Return idx => records_ok ls ∧ idx = index_of (records ls) c
  | Raise e => CacheFormatError e ∧ ¬ records_ok ls
  end.
Proof.
  unfold records_ok.
  induction ls as [|a|a b|[o1 l1] [o2 l2] [o3 l3] ls IH] using list_ind3; intros c ln.
  - simpl. repeat split. constructor.
  - destruct a. simpl. split; [by left|]. intros [H _]. done.
  - destruct a, b. simpl. split; [by left|]. intros [H _]. done.
  - cbn [scan records]. cbn [length]. rewrite mod3_SSS.
    case_bool_decide as Hd.
    + split; [right; eauto|]. intros [_ HF].
      apply Forall_cons in HF as [HF _]. simpl in HF. done.
    + specialize (IH (<[chomp l1 := (o1, chomp l2)]> c) (ln + 3)).
      destruct (scan ls _ _) as [idx|e].
      * destruct IH as [[Hm HF] ->]. split; [split; [done|] | done].
        constructor; [simpl; lia | done].
      * destruct IH as [He Hn]. split; [done|]. intros [Hm HF].
        apply Hn. split; [done|]. by apply Forall_cons in HF as [_ HF].
Qed.

Lemma scan_app l1 l2 : ∀ c ln c1,
  scan l1 c ln = Return c1 →
  scan (l1 ++ l2) c ln = scan l2 c1 (ln + length l1).
Proof.
  induction l1 as [|a|a b|[o1 x1] [o2 x2] [o3 x3] l1 IH] using list_ind3; intros c ln c1 H.
  - simpl in *. inversion H. by rewrite Nat.add_0_r.
  - by destruct a.
  - by destruct a, b.
  - cbn [scan app] in *. case_bool_decide; [done|].
    rewrite (IH _ _ _ H). f_equal. simpl. lia.
Qed.

(** ** Loading the index *)



(** ** Appending a record *)

Lemma record_text_printed (chars key data_date payload : string) :
  chars +:+ (key +:+ String LF (data_date +:+ String LF payload)) +:+ String LF EmptyString
  = chars +:+ record_text key data_date payload.
Proof. unfold record_text, newline. f_equal. by string_norm. Qed.

Lemma write_cache_entry_on_writable (data_date key payload : string)
    (self : rxnav_rest_api_mp) (f : text_file) :
  rxnav_cache_file self = Some f →
  writable f = true →
  (rxnav_cache_file_at_EOF self = true → pos f = String.length (content f)) →
  write_cache_entry data_date (PyStr key) (PyStr payload) self
  = (Return PyNone,
     set_cache (<[key := (String.length (content f), data_date)]> (rxnav_cache self))
       (set_file (TextFile (content f +:+ record_text key data_date payload)
                    (String.length (content f +:+ record_text key data_date payload)) true)
          true self)).
Proof.
  intros Hf Hw Heof. unfold write_cache_entry. rewrite Hf.
  assert (Htell : tell (if rxnav_cache_file_at_EOF self then f else seek_end f)
                  = String.length (content f)).
  { destruct (rxnav_cache_file_at_EOF self); [by apply Heof | done]. }
  assert (Hprint : ∀ s, print_to s (if rxnav_cache_file_at_EOF self then f else seek_end f)
                        = (Return tt,
                           TextFile (content f +:+ s +:+ String LF EmptyString)
                                    (String.length (content f +:+ s +:+ String LF EmptyString))
                                    true)).
  { intros s. unfold print_to.
    destruct (rxnav_cache_file_at_EOF self); simpl; by rewrite Hw. }
  rewrite Hprint, Htell, record_text_printed. reflexivity.
Qed.

(** C8 (as amended). On an object with a writable cache file whose
    end-of-file flag tells the truth, [write_cache_entry] puts the three
    lines key, date, payload at the end of the file (after a seek to the
    end when the flag says the cursor is elsewhere), leaves the handle at
    the new end, and sets the index entry of the key to the offset at which
    the record began and the date, whatever the entry was.  It returns
    [None], not the offset. *)
Theorem write_cache_entry_appends (data_date key payload : string)
    (self : rxnav_rest_api_mp) (f : text_file) :
  rxnav_cache_file self = Some f →
  writable f = true →
  (rxnav_cache_file_at_EOF self = true → pos f = String.length (content f)) →
  ∃ self' f',
    write_cache_entry data_date (PyStr key) (PyStr payload) self = (Return PyNone, self') ∧
    rxnav_cache_file self' = Some f' ∧
    content f' = content f +:+ record_text key data_date payload ∧
    pos f' = String.length (content f') ∧
    rxnav_cache_file_at_EOF self' = true ∧
    rxnav_cache self' = <[key := (String.length (content f), data_date)]> (rxnav_cache self).
Proof.
  intros Hf Hw Heof.
  rewrite (write_cache_entry_on_writable data_date key payload self f Hf Hw Heof).
  eexists _, _. split; [reflexivity|].
  split; [reflexivity|]. simpl. repeat split.
Qed.

Lemma write_cache_entry_appends_witness :
  ∃ self' f',
    write_cache_entry "20180816" (PyStr "u") (PyStr "{}") fresh_writer = (Return PyNone, self') ∧
    rxnav_cache_file self' = Some f' ∧
    content f' = EmptyString +:+ record_text "u" "20180816" "{}" ∧
    pos f' = String.length (content f') ∧
    rxnav_cache_file_at_EOF self' = true ∧
    rxnav_cache self' = <[ "u" := (0, "20180816")]> ∅.
Proof.
  apply (write_cache_entry_appends "20180816" "u" "{}" fresh_writer (TextFile EmptyString 0 true));
    reflexivity.
Defined.

(** C8, counterexample: the first record of an empty cache begins at
    offset 0, and the call returns [None]. *)
Lemma write_cache_entry_returns_None :
  __init__ (Some EmptyString) false false false = Some (Return fresh_writer) ∧
  fst (write_cache_entry "20180816" (PyStr "u") (PyStr "{}") fresh_writer) = Return PyNone ∧
  ¬ returns_record_offset "20180816" "u" "{}" fresh_writer.
Proof.
  split; [reflexivity|]. split; [reflexivity|].
  unfold returns_record_offset. vm_compute. discriminate.
Qed.

(** C10. [write_cache_entry] leaves the index entry of every other key as
    it was, and the characters the file had are still there, in place: the
    file has only grown at its end. *)
Theorem write_cache_entry_frame (data_date : string) (request_url json_string : pyobj)
    (self : rxnav_rest_api_mp) (other : string) :
  request_url ≠ PyStr other →
  let self' := snd (write_cache_entry data_date request_url json_string self) in
  rxnav_cache self' !! other = rxnav_cache self !! other ∧
  ∃ tail, file_chars self' = file_chars self +:+ tail.
Proof.
  intros Hne. unfold write_cache_entry, file_chars.
  destruct (rxnav_cache_file self) as [f|] eqn:Hf; simpl.
  2:{ rewrite Hf. split; [done|]. by exists EmptyString. }
  assert (Hc : content (if rxnav_cache_file_at_EOF self then f else seek_end f) = content f)
    by (by destruct (rxnav_cache_file_at_EOF self)).
  destruct request_url as [|z|url|items]; simpl;
    try (rewrite Hc; split; [done|]; exists EmptyString; by rewrite string_app_empty_r).
  destruct json_string as [|z|json|items]; simpl;
    try (rewrite Hc; split; [done|]; exists EmptyString; by rewrite string_app_empty_r).
  unfold print_to.
  destruct (writable (if rxnav_cache_file_at_EOF self then f else seek_end f)); simpl.
  - rewrite Hc. split.
    + apply lookup_insert_ne. congruence.
    + eexists. reflexivity.
  - rewrite Hc. split; [done|]. exists EmptyString. by rewrite string_app_empty_r.
Qed.

Lemma write_cache_entry_frame_witness :
  let self' := snd (write_cache_entry "20180817" (PyStr "v") (PyStr "[]")
                      (one_entry_holder false false false)) in
  rxnav_cache self' !! "u" = rxnav_cache (one_entry_holder false false false) !! "u" ∧
  ∃ tail, file_chars self' = file_chars (one_entry_holder false false false) +:+ tail.
Proof.
  apply (write_cache_entry_frame "20180817" (PyStr "v") (PyStr "[]")
           (one_entry_holder false false false) "u").
  discriminate.
Defined.

(** ** The client: cache hit, strict mode, retries *)

Lemma readline_lines f :
  match lines_ahead f with
  | [] => readline f = (EmptyString, f)
  | (o, l) :: rest =>
      ∃ f', readline f = (l, f') ∧ content f' = content f ∧ lines_ahead f' = rest
  end.
Proof.
  unfold lines_ahead, readline, remaining.
  destruct (string_drop (pos f) (content f)) as [|a t] eqn:Hd.
  - simpl. by rewrite seek_pos_id.
  - destruct (read_line_lines (String a t) (pos f)) as (l & n & Hr & _ & _ & _ & Hlines);
      [done|].
    rewrite Hlines, Hr. eexists. split; [done|]. simpl.
    split; [done|]. by rewrite string_drop_add, Hd.
Qed.

(** The third [readline] after a seek to [p] yields line 2 from [p]. *)
Lemma third_line_after_seek f p :
  ∃ x1 f1 x2 f2 f3,
    readline (seek p f) = (x1, f1) ∧ readline f1 = (x2, f2) ∧
    readline f2 = (line_from (content f) p 2, f3).
Proof.
  unfold line_from.
  pose proof (readline_lines (seek p f)) as H1.
  unfold lines_ahead at 1, remaining in H1. simpl in H1.
  destruct (lines_at p (string_drop p (content f))) as [|[o1 l1] ls1].
  { exists EmptyString, (seek p f), EmptyString, (seek p f), (seek p f).
    rewrite H1. done. }
  destruct H1 as (f1 & H1 & Hc1 & Ha1).
  pose proof (readline_lines f1) as H2. rewrite Ha1 in H2.
  destruct ls1 as [|[o2 l2] ls2].
  { exists l1, f1, EmptyString, f1, f1. rewrite H1, H2. done. }
  destruct H2 as (f2 & H2 & Hc2 & Ha2).
  pose proof (readline_lines f2) as H3. rewrite Ha2 in H3.
  destruct ls2 as [|[o3 l3] ls3].
  { exists l1, f1, l2, f2, f2. rewrite H1, H2, H3. done. }
  destruct H3 as (f3 & H3 & Hc3 & Ha3).
  exists l1, f1, l2, f2, f3. rewrite H1, H2, H3. done.
Qed.

Section ClientProperties.

Context {Json : Type}.
Variable json_loads : string → option Json.
Variable requests_get : nat → string → option string.

Lemma get_rxnav_data_hit (request_url : string) (w : world)
    (p : nat) (d : string) (f : text_file) :
  use_caching (self_of w) = true →
  rxnav_cache (self_of w) !! request_url = Some (p, d) →
  rxnav_cache_file (self_of w) = Some f →
  ∃ f', get_rxnav_data json_loads requests_get request_url w
        = (loads json_loads (chomp (line_from (content f) p 2)),
           World (set_file f' false (count_cache_hit (count_request (self_of w))))
                 (cache_writer_queue w) (requests_issued w)).
Proof.
  intros Hu Hc Hf. unfold get_rxnav_data. simpl. rewrite Hu, Hc, Hf.
  destruct (third_line_after_seek f p) as (x1 & f1 & x2 & f2 & f3 & H1 & H2 & H3).
  rewrite H1, H2, H3. by exists f3.
Qed.


Lemma retry_loop_0 request_url i :
  retry_loop requests_get 0 request_url i = (None, i).
Proof. reflexivity. Qed.

Lemma retry_loop_S n request_url i :
  retry_loop requests_get (S n) request_url i
  = match requests_get i request_url with
    | Some text => (Some text, S i)
    | None => retry_loop requests_get n request_url (S i)
    end.
Proof. reflexivity. Qed.

Lemma retry_loop_issued n : ∀ request_url i,
  let '(r, i') := retry_loop requests_get (S n) request_url i in
  i < i' ≤ i + S n.
Proof.
  induction n as [|n IH]; intros request_url i; rewrite retry_loop_S.
  - rewrite retry_loop_0. destruct (requests_get i request_url); lia.
  - destruct (requests_get i request_url); [lia|].
    specialize (IH request_url (S i)).
    destruct (retry_loop requests_get (S n) request_url (S i)). lia.
Qed.

Lemma get_rxnav_data_holder_ok request_url w :
  holder_ok (self_of w) →
  holder_ok (self_of (snd (get_rxnav_data json_loads requests_get request_url w))).
Proof.
  unfold holder_ok, get_rxnav_data. simpl.
  destruct (rxnav_cache_file (self_of w)) as [f|] eqn:Hf.
  - intros [Hu Heof]. rewrite Hu.
    destruct (rxnav_cache (self_of w) !! request_url) as [[p d]|].
    + destruct (third_line_after_seek f p) as (x1 & f1 & x2 & f2 & f3 & H1 & H2 & H3).
      rewrite H1, H2, H3. simpl. done.
    + destruct (fail_if_not_in_cache (self_of w)); simpl; [by rewrite Hf|].
      destruct (retry_loop requests_get retry_limit request_url (requests_issued w))
        as [[text|] i']; [destruct (json_loads text)|]; simpl; by rewrite Hf.
  - intros [Hu He]. rewrite Hu.
    destruct (fail_if_not_in_cache (self_of w)); simpl; [by rewrite Hf|].
    destruct (retry_loop requests_get retry_limit request_url (requests_issued w))
      as [[text|] i']; [destruct (json_loads text)|]; simpl; by rewrite Hf.
Qed.

(** C6. In strict mode [get_rxnav_data] raises the not-in-cache
    [ValueError] exactly when the key is absent from the index, and then
    it has issued no remote call, queued nothing and left index and file
    as they were; without strict mode the same absence leads to at least
    one remote call. *)
Theorem strict_mode_miss (request_url : string) (w : world) :
  holder_ok (self_of w) →
  let '(r, w') := get_rxnav_data json_loads requests_get request_url w in
  (fail_if_not_in_cache (self_of w) = true →
     (r = Raise (NotCached request_url) ↔ rxnav_cache (self_of w) !! request_url = None) ∧
     (r = Raise (NotCached request_url) →
        requests_issued w' = requests_issued w ∧
        cache_writer_queue w' = cache_writer_queue w ∧
        rxnav_cache (self_of w') = rxnav_cache (self_of w) ∧
        rxnav_cache_file (self_of w') = rxnav_cache_file (self_of w))) ∧
  (fail_if_not_in_cache (self_of w) = false →
     rxnav_cache (self_of w) !! request_url = None →
     r ≠ Raise (NotCached request_url) ∧ requests_issued w < requests_issued w').
Proof.
  intros Hok. unfold holder_ok in Hok.
  destruct (get_rxnav_data json_loads requests_get request_url w) as [r w'] eqn:E.
  unfold get_rxnav_data in E. simpl in E.
  destruct (rxnav_cache_file (self_of w)) as [f|] eqn:Hf.
  - destruct Hok as [Hu _]. rewrite Hu in E.
    destruct (rxnav_cache (self_of w) !! request_url) as [[p d]|] eqn:Hc.
    + destruct (third_line_after_seek f p) as (x1 & f1 & x2 & f2 & f3 & H1 & H2 & H3).
      rewrite H1, H2, H3 in E. injection E; intros <- <-.
      assert (Hl : ∀ t, loads json_loads t ≠ Raise (NotCached request_url)).
      { intros t. unfold loads. by destruct (json_loads t). }
      split; [|done]. intros _. split; [split; [|done] |]; intros H; by apply Hl in H.
    + split.
      * intros Hs. rewrite Hs in E. injection E; intros <- <-. simpl. done.
      * intros Hs _. rewrite Hs in E.
        pose proof (retry_loop_issued 39 request_url (requests_issued w)) as Hi.
        change (S 39) with retry_limit in Hi.
        destruct (retry_loop requests_get retry_limit request_url (requests_issued w))
          as [[text|] i'].
        -- destruct (json_loads text); injection E; intros <- <-; simpl; (split; [done|lia]).
        -- injection E; intros <- <-. simpl. split; [done|lia].
  - destruct Hok as [Hu He]. rewrite Hu in E. split.
    + intros Hs. rewrite Hs in E. injection E; intros <- <-. simpl.
      rewrite He, lookup_empty. done.
    + intros Hs _. rewrite Hs in E.
      pose proof (retry_loop_issued 39 request_url (requests_issued w)) as Hi.
      change (S 39) with retry_limit in Hi.
      destruct (retry_loop requests_get retry_limit request_url (requests_issued w))
        as [[text|] i'].
      * destruct (json_loads text); injection E; intros <- <-; simpl; (split; [done|lia]).
      * injection E; intros <- <-. simpl. split; [done|lia].
Qed.




End ClientProperties.

(** ** Lines of a file that grows by one record *)

Lemma lines_at_app_bounded k : ∀ c off r,
  String.length c ≤ k →
  ends_LF c = true →
  lines_at off (c +:+ r) = lines_at off c ++ lines_at (off + String.length c) r.
Proof.
  induction k as [|k IH]; intros c off r Hle Hend.
  { destruct c; [done | simpl in Hle; lia]. }
  destruct c as [|a t]; [done|].
  rewrite string_app_cons. cbn [lines_at]. simpl in Hle.
  destruct (is_LF a) eqn:Ha.
  { destruct t as [|b t'].
    - simpl. by replace (off + 1) with (S off) by lia.
    - rewrite IH by (done || lia). cbn [String.length].
      by replace (off + S (S (String.length t'))) with (S off + S (String.length t')) by lia. }
  destruct (is_CR a) eqn:Hb.
  { destruct t as [|b t']; [simpl in Hend; congruence|].
    rewrite string_app_cons. destruct (is_LF b) eqn:Hc.
    - destruct t' as [|b' t''].
      + simpl. by replace (off + 2) with (S (S off)) by lia.
      + rewrite IH by (done || simpl in *; lia). cbn [String.length].
        by replace (off + S (S (S (String.length t''))))
          with (S (S off) + S (String.length t'')) by lia.
    - rewrite <- string_app_cons. rewrite IH by (done || lia). cbn [String.length].
      by replace (off + S (S (String.length t'))) with (S off + S (String.length t')) by lia. }
  destruct t as [|b t']; [simpl in Hend; congruence|].
  rewrite IH by (done || lia).
  destruct (read_line_lines (String b t') (S off)) as (l & n & _ & _ & _ & _ & Hl); [done|].
  rewrite Hl. cbn [app String.length].
  by replace (off + S (S (String.length t'))) with (S off + S (String.length t')) by lia.
Qed.

Lemma lines_at_app c off r :
  ends_LF c = true →
  lines_at off (c +:+ r) = lines_at off c ++ lines_at (off + String.length c) r.
Proof. by apply (lines_at_app_bounded (String.length c)). Qed.

Lemma lines_at_line k : ∀ off r,
  no_break k = true →
  lines_at off (k +:+ String LF r)
  = (off, k +:+ newline) :: lines_at (off + String.length k + 1) r.
Proof.
  induction k as [|a k IH]; intros off r Hk.
  - simpl. by replace (off + 0 + 1) with (S off) by lia.
  - simpl in Hk. apply andb_true_iff in Hk as [Ha Hk].
    apply andb_true_iff in Ha as [Ha Hb].
    apply negb_true_iff in Ha, Hb.
    rewrite !string_app_cons. cbn [lines_at]. rewrite Ha, Hb, IH by done.
    cbn [String.length].
    by replace (S off + String.length k + 1) with (off + S (String.length k) + 1) by lia.
Qed.

Lemma rstrip_LF_line k : no_break k = true → rstrip LF (k +:+ newline) = k.
Proof.
  induction k as [|a k IH]; intros Hk; [done|].
  simpl in Hk. apply andb_true_iff in Hk as [Ha Hk].
  apply andb_true_iff in Ha as [Ha _]. apply negb_true_iff in Ha.
  rewrite string_app_cons. cbn [rstrip]. rewrite IH by done.
  unfold is_LF in Ha. rewrite Ha. by destruct k.
Qed.

Lemma rstrip_CR_no_break k : no_break k = true → rstrip CR k = k.
Proof.
  induction k as [|a k IH]; intros Hk; [done|].
  simpl in Hk. apply andb_true_iff in Hk as [Ha Hk].
  apply andb_true_iff in Ha as [_ Ha]. apply negb_true_iff in Ha.
  cbn [rstrip]. rewrite IH by done.
  unfold is_CR in Ha. rewrite Ha. by destruct k.
Qed.

Lemma chomp_line k : no_break k = true → chomp (k +:+ newline) = k.
Proof.
  intros Hk. unfold chomp. by rewrite rstrip_LF_line, rstrip_CR_no_break.
Qed.

Lemma record_text_lines key data_date payload off :
  no_break key = true → no_break data_date = true → no_break payload = true →
  lines_at off (record_text key data_date payload)
  = [ (off, key +:+ newline);
      (off + String.length key + 1, data_date +:+ newline);
      (off + String.length key + 1 + String.length data_date + 1, payload +:+ newline) ].
Proof.
  intros Hk Hd Hp.
  change (record_text key data_date payload)
    with (key +:+ String LF (data_date +:+ String LF (payload +:+ String LF EmptyString))).
  rewrite !lines_at_line by done. done.
Qed.

Lemma grown_file_lines chars key data_date payload :
  chars = EmptyString ∨ ends_LF chars = true →
  no_break key = true → no_break data_date = true → no_break payload = true →
  file_lines (chars +:+ record_text key data_date payload)
  = file_lines chars
    ++ [ (String.length chars, key +:+ newline);
         (String.length chars + String.length key + 1, data_date +:+ newline);
         (String.length chars + String.length key + 1 + String.length data_date + 1,
          payload +:+ newline) ].
Proof.
  intros [->|Hend] Hk Hd Hp; unfold file_lines.
  - rewrite string_app_nil. by rewrite record_text_lines.
  - rewrite lines_at_app by done. by rewrite record_text_lines.
Qed.

(** ** The constructor *)

Lemma init_loaded chars ro fw st idx :
  scan (file_lines chars) ∅ 0 = Return idx →
  ∃ f, __init__ (Some chars) ro fw st = Some (Return (RxNav ro fw st true idx (Some f) true 0 0 0)) ∧
       content f = chars ∧ writable f = negb ro ∧ pos f = String.length chars.
Proof.
  intros Hs. unfold __init__.
  destruct (load_existing_cache_scan (TextFile chars 0 (negb ro)) ∅) as (f & H & Hc & Hw & Hp).
  simpl in *. rewrite H, Hs. exists f. repeat split; eauto.
Qed.

Lemma init_failed chars ro fw st e :
  scan (file_lines chars) ∅ 0 = Raise e →
  __init__ (Some chars) ro fw st = Some (Raise e).
Proof.
  intros Hs. unfold __init__.
  destruct (load_existing_cache_scan (TextFile chars 0 (negb ro)) ∅) as (f & H & _).
  simpl in *. by rewrite H, Hs.
Qed.

Lemma init_holder_ok cache_filename ro fw st self :
  __init__ cache_filename ro fw st = Some (Return self) → holder_ok self.
Proof.
  destruct cache_filename as [chars|]; [|intros [= <-]; by split].
  intros H.
  destruct (scan (file_lines chars) ∅ 0) as [idx|e] eqn:Hs.
  - destruct (init_loaded chars ro fw st idx Hs) as (f & Hi & Hc & Hw & Hp).
    rewrite Hi in H. injection H; intros <-. unfold holder_ok. simpl.
    split; [done|]. intros _. congruence.
  - rewrite (init_failed chars ro fw st e Hs) in H. discriminate.
Qed.

Lemma write_cache_entry_holder_ok data_date request_url json_string self :
  holder_ok self →
  holder_ok (snd (write_cache_entry data_date request_url json_string self)).
Proof.
  unfold holder_ok, write_cache_entry.
  destruct (rxnav_cache_file self) as [f|] eqn:Hf; [|simpl; by rewrite Hf].
  intros [Hu Heof].
  assert (Hpos : pos (if rxnav_cache_file_at_EOF self then f else seek_end f)
                 = String.length (content (if rxnav_cache_file_at_EOF self then f else seek_end f))).
  { destruct (rxnav_cache_file_at_EOF self); [by apply Heof | done]. }
  destruct request_url as [| |url|]; try done.
  destruct json_string as [| |json|]; try done.
  unfold print_to.
  by destruct (writable (if rxnav_cache_file_at_EOF self then f else seek_end f)).
Qed.

Lemma well_formed_log_scan chars :
  well_formed_log chars →
  scan (file_lines chars) ∅ 0 = Return (index_of (records (file_lines chars)) ∅).
Proof.
  intros Hwf. pose proof (scan_records (file_lines chars) ∅ 0) as Hs.
  destruct (scan (file_lines chars) ∅ 0) as [idx|e].
  - by destruct Hs as [_ ->].
  - by destruct Hs as [_ Hn].
Qed.

(** ** Round trip *)

Lemma line_from_grown chars key data_date payload :
  no_break key = true → no_break data_date = true → no_break payload = true →
  line_from (chars +:+ record_text key data_date payload) (String.length chars) 2
  = payload +:+ newline.
Proof.
  intros Hk Hd Hp. unfold line_from.
  by rewrite string_drop_app_length, record_text_lines.
Qed.

Lemma scan_grown chars key data_date payload idx :
  chars = EmptyString ∨ ends_LF chars = true →
  no_break key = true → no_break data_date = true → no_break payload = true →
  String.length data_date = 8 →
  scan (file_lines chars) ∅ 0 = Return idx →
  scan (file_lines (chars +:+ record_text key data_date payload)) ∅ 0
  = Return (<[key := (String.length chars, data_date)]> idx).
Proof.
  intros Hend Hk Hd Hp Hlen Hs.
  rewrite grown_file_lines by done.
  rewrite (scan_app _ _ _ _ _ Hs). cbn [scan].
  rewrite !chomp_line by done.
  by rewrite bool_decide_false by lia.
Qed.

Section RoundTrip.

Context {Json : Type}.
Variable json_loads : string → option Json.
Variable requests_get : nat → string → option string.

(** C2 (as amended). Let the cache file be a well-formed log that is
    empty or ends with a newline, and let key, date and payload be free
    of line breaks, the date eight characters long.  Then appending the
    record, loading the resulting file in a fresh process and looking the
    key up through the cache-hit path of [get_rxnav_data] yields the
    decoded payload ([json.loads] of exactly the appended text). *)
Theorem append_reload_lookup (chars key data_date payload : string) :
  well_formed_log chars →
  chars = EmptyString ∨ ends_LF chars = true →
  no_break key = true →
  no_break data_date = true →
  no_break payload = true →
  String.length data_date = 8 →
  round_trip json_loads requests_get chars key data_date payload.
Proof.
  intros Hwf Hend Hk Hd Hp Hlen.
  pose proof (well_formed_log_scan chars Hwf) as Hs.
  destruct (init_loaded chars false false false _ Hs) as (f & Hi & Hc & Hw & Hpos).
  set (writer := RxNav false false false true
                   (index_of (records (file_lines chars)) ∅) (Some f) true 0 0 0) in *.
  pose proof (write_cache_entry_on_writable data_date key payload writer f
                eq_refl Hw ltac:(intros _; congruence)) as Hwr.
  set (writer' := set_cache _ _) in Hwr.
  pose proof (scan_grown chars key data_date payload _ Hend Hk Hd Hp Hlen Hs) as Hs'.
  assert (Hchars : file_chars writer' = chars +:+ record_text key data_date payload).
  { unfold file_chars. simpl. by rewrite Hc. }
  destruct (init_loaded (file_chars writer') true false true _
              ltac:(rewrite Hchars; exact Hs')) as (g & Hi' & Hg & _ & _).
  eexists writer, writer', _. repeat split; [done | done | exact Hi' |].
  destruct (get_rxnav_data_hit json_loads requests_get key
              (World (RxNav true false true true
                        (<[key := (String.length chars, data_date)]>
                           (index_of (records (file_lines chars)) ∅))
                        (Some g) true 0 0 0) [] 0)
              (String.length chars) data_date g) as (g' & Hget); try done.
  { simpl. apply lookup_insert_eq. }
  rewrite Hget. simpl. rewrite Hg, Hchars.
  by rewrite line_from_grown, chomp_line.
Qed.

End RoundTrip.

Lemma append_reload_lookup_witness :
  round_trip (Json := string) Some dead_remote one_entry_log "v" "20180817" "[]".
Proof.
  apply (append_reload_lookup Some dead_remote one_entry_log "v" "20180817" "[]").
  - split; [reflexivity|]. repeat constructor.
  - right. reflexivity.
  - reflexivity.
  - reflexivity.
  - reflexivity.
  - reflexivity.
Defined.

(** C2, counterexample: the payload [{\n}] (JSON on two lines) appended
    to the empty cache makes a file of four lines; the reload of the fresh
    process fails, there is nothing to look up. *)
Lemma round_trip_fails_on_two_line_payload :
  ¬ round_trip (Json := string) Some dead_remote EmptyString "u" "20180816" two_line_json.
Proof.
  intros (writer & writer' & reader & H1 & H2 & H3 & _).
  vm_compute in H1. injection H1; intros <-.
  vm_compute in H2. injection H2; intros <-.
  vm_compute in H3. discriminate.
Qed.

(** ** Concrete runs of the client *)


Lemma strict_mode_miss_witness :
  holder_ok (self_of strict_world) ∧
  let '(r, w') := get_rxnav_data (Json := string) Some dead_remote "v" strict_world in
  (fail_if_not_in_cache (self_of strict_world) = true →
     (r = Raise (NotCached "v") ↔ rxnav_cache (self_of strict_world) !! "v" = None) ∧
     (r = Raise (NotCached "v") →
        requests_issued w' = requests_issued strict_world ∧
        cache_writer_queue w' = cache_writer_queue strict_world ∧
        rxnav_cache (self_of w') = rxnav_cache (self_of strict_world) ∧
        rxnav_cache_file (self_of w') = rxnav_cache_file (self_of strict_world))) ∧
  (fail_if_not_in_cache (self_of strict_world) = false →
     rxnav_cache (self_of strict_world) !! "v" = None →
     r ≠ Raise (NotCached "v") ∧ requests_issued strict_world < requests_issued w').
Proof.
  assert (Hok : holder_ok (self_of strict_world)) by (by split).
  split; [exact Hok|].
  exact (strict_mode_miss (Json := string) Some dead_remote "v" strict_world Hok).
Defined.


(** ** The work partition *)

Lemma ceil_div_covers n w : 0 < w → n ≤ ceil_div n w * w.
Proof.
  intros Hw. unfold ceil_div.
  pose proof (Nat.div_mod_eq n w) as Hdm.
  pose proof (Nat.mod_upper_bound n w ltac:(lia)) as Hub.
  destruct (n mod w =? 0) eqn:E.
  - apply Nat.eqb_eq in E. lia.
  - lia.
Qed.

Lemma ceil_div_small n w : n < w → ceil_div n w ≤ 1.
Proof.
  intros Hw. unfold ceil_div. rewrite (Nat.div_small n w) by done.
  destruct (n mod w =? 0); lia.
Qed.

Lemma slice_length {A : Type} (s i : nat) (l : list A) :
  length (slice (s * i) (s * (i + 1)) l) = s `min` (length l - s * i).
Proof.
  unfold slice. rewrite length_take, length_drop.
  by replace (s * (i + 1) - s * i) with s by lia.
Qed.

Lemma slices_concat {A : Type} (s : nat) (l : list A) (w : nat) :
  concat ((λ idx, slice (s * idx) (s * (idx + 1)) l) <$> seq 0 w) = take (s * w) l.
Proof.
  induction w as [|w IH].
  - by rewrite Nat.mul_0_r.
  - rewrite seq_S, fmap_app, concat_app, IH. simpl.
    rewrite app_nil_r. unfold slice.
    replace (s * (w + 1) - s * w) with s by lia.
    rewrite take_take_drop. f_equal. lia.
Qed.

Lemma slice_elem {A : Type} (a b : nat) (l : list A) (x : A) :
  x ∈ slice a b l → ∃ p, l !! p = Some x ∧ a ≤ p < b.
Proof.
  unfold slice. intros H. apply list_elem_of_lookup in H as [q Hq].
  apply lookup_take_Some in Hq as [Hq Hlt]. rewrite lookup_drop in Hq.
  exists (a + q). split; [done | lia].
Qed.

Lemma worker_segments_lookup {A : Type} (w : nat) (l : list A) segs i seg :
  worker_segments w l = Return segs → segs !! i = Some seg →
  i < w ∧ seg = slice (ceil_div (length l) w * i) (ceil_div (length l) w * (i + 1)) l.
Proof.
  unfold worker_segments. destruct (w =? 0); [done|].
  intros [= <-] Hi. rewrite list_lookup_fmap in Hi.
  destruct (seq 0 w !! i) as [j|] eqn:Hj; [|done].
  apply lookup_seq in Hj as [-> Hlt]. simpl in Hi. by injection Hi; intros <-.
Qed.

(** C3 (as amended). For [workerCount >= 1] the segments, taken in worker
    order, concatenate to the work list; there are [workerCount] of them;
    segment [i] has size [min(ceil(n/workerCount), n - i*ceil(n/workerCount))]
    (zero once [i*ceil(n/workerCount)] reaches [n]), so a segment is full
    whenever the one after it is not empty; and when the list has no
    duplicates two distinct segments share no element. *)
Theorem worker_segments_partition {A : Type} (w : nat) (l : list A) :
  1 ≤ w →
  ∃ segs, worker_segments w l = Return segs ∧
    length segs = w ∧
    concat segs = l ∧
    (∀ i seg, segs !! i = Some seg →
       length seg = ceil_div (length l) w `min` (length l - ceil_div (length l) w * i)) ∧
    (∀ i seg next, segs !! i = Some seg → segs !! (S i) = Some next → next ≠ [] →
       length seg = ceil_div (length l) w) ∧
    (NoDup l → ∀ i j si sj x, i ≠ j → segs !! i = Some si → segs !! j = Some sj →
       x ∈ si → x ∉ sj).
Proof.
  intros Hw.
  assert (Hsegs : worker_segments w l
                  = Return ((λ idx, slice (ceil_div (length l) w * idx)
                                          (ceil_div (length l) w * (idx + 1)) l) <$> seq 0 w)).
  { unfold worker_segments. destruct (w =? 0) eqn:E; [|done].
    apply Nat.eqb_eq in E. lia. }
  eexists. split; [exact Hsegs|].
  set (s := ceil_div (length l) w) in *.
  assert (Hsize : ∀ i seg,
             ((λ idx, slice (s * idx) (s * (idx + 1)) l) <$> seq 0 w) !! i = Some seg →
             length seg = s `min` (length l - s * i)).
  { intros i seg Hi.
    destruct (worker_segments_lookup w l _ i seg Hsegs Hi) as [_ ->].
    apply slice_length. }
  split; [by rewrite length_fmap, length_seq|].
  split; [|split; [done|split]].
  - rewrite slices_concat. apply take_ge.
    pose proof (ceil_div_covers (length l) w ltac:(lia)). fold s in H. lia.
  - intros i seg next Hi Hn Hne.
    rewrite (Hsize _ _ Hi). pose proof (Hsize _ _ Hn) as Hln.
    destruct next; [done|]. simpl in Hln. nia.
  - intros Hnd i j si sj x Hij Hi Hj Hxi Hxj.
    destruct (worker_segments_lookup w l _ i si Hsegs Hi) as [_ ->].
    destruct (worker_segments_lookup w l _ j sj Hsegs Hj) as [_ ->].
    fold s in Hxi, Hxj.
    apply slice_elem in Hxi as (p & Hp & Hpr).
    apply slice_elem in Hxj as (q & Hq & Hqr).
    pose proof (NoDup_lookup l p q x Hnd Hp Hq) as ->.
    nia.
Qed.

Lemma worker_segments_partition_witness :
  ∃ segs, worker_segments 4 [1; 2; 3; 4; 5; 6; 7; 8; 9; 10]%Z = Return segs ∧
    length segs = 4 ∧
    concat segs = [1; 2; 3; 4; 5; 6; 7; 8; 9; 10]%Z ∧
    (∀ i seg, segs !! i = Some seg →
       length seg = ceil_div 10 4 `min` (10 - ceil_div 10 4 * i)) ∧
    (∀ i seg next, segs !! i = Some seg → segs !! (S i) = Some next → next ≠ [] →
       length seg = ceil_div 10 4) ∧
    (NoDup [1; 2; 3; 4; 5; 6; 7; 8; 9; 10]%Z →
     ∀ i j si sj x, i ≠ j → segs !! i = Some si → segs !! j = Some sj →
       x ∈ si → x ∉ sj).
Proof.
  apply (worker_segments_partition 4 [1; 2; 3; 4; 5; 6; 7; 8; 9; 10]%Z). lia.
Defined.

(** C3, counterexample: five codes over four workers give the sizes
    2, 2, 1, 0; the third segment is not the last one and is not full. *)
Lemma third_of_four_segments_not_full :
  worker_segments 4 [1; 2; 3; 4; 5]%Z = Return [[1; 2]; [3; 4]; [5]; []]%Z ∧
  ceil_div 5 4 = 2 ∧
  ¬ all_but_last_full 4 [1; 2; 3; 4; 5]%Z.
Proof.
  split; [reflexivity|]. split; [reflexivity|].
  intros H. specialize (H _ 2 [5]%Z eq_refl). simpl in H.
  specialize (H ltac:(lia) eq_refl). discriminate.
Qed.

(** ** The cache writer loop *)

(** C7 (as amended). On a writer whose cache file is writable and whose
    end-of-file flag tells the truth, the loop of [cache_writer_task]
    treats the next message by its shape: a list of two strings is
    appended to the store as a record and counted, and the loop goes on;
    the string ['kill'] ends the loop; every other list is fatal (the
    unpacking or the string concatenation raises); every message that is
    neither a list nor ['kill'] is dropped without a trace and the loop
    goes on with the next message. *)
Theorem cache_writer_message_shapes (now : nat → string) (rest : list pyobj) (count : nat)
    (rxnav : rxnav_rest_api_mp) (f : text_file) :
  rxnav_cache_file rxnav = Some f →
  writable f = true →
  (rxnav_cache_file_at_EOF rxnav = true → pos f = String.length (content f)) →
  (∀ key payload, ∃ rxnav',
     cache_writer_loop now (PyList [PyStr key; PyStr payload] :: rest) count rxnav
     = cache_writer_loop now rest (S count) rxnav' ∧
     file_chars rxnav' = file_chars rxnav +:+ record_text key (now count) payload ∧
     rxnav_cache rxnav'
     = <[key := (String.length (file_chars rxnav), now count)]> (rxnav_cache rxnav)) ∧
  cache_writer_loop now (PyStr "kill" :: rest) count rxnav = (Return Killed, count, rxnav) ∧
  (∀ m, is_list m → ¬ is_cache_write m → ∃ e rxnav',
     cache_writer_loop now (m :: rest) count rxnav = (Raise e, count, rxnav') ∧
     file_chars rxnav' = file_chars rxnav) ∧
  (∀ m, ¬ is_list m → m ≠ PyStr "kill" →
     cache_writer_loop now (m :: rest) count rxnav = cache_writer_loop now rest count rxnav).
Proof.
  intros Hf Hw Heof. repeat split.
  - intros key payload.
    pose proof (write_cache_entry_on_writable (now count) key payload rxnav f Hf Hw Heof)
      as Hwr.
    exists (set_cache
              (<[key := (String.length (content f), now count)]> (rxnav_cache rxnav))
              (set_file (TextFile (content f +:+ record_text key (now count) payload)
                           (String.length (content f +:+ record_text key (now count) payload))
                           true) true rxnav)).
    cbn [cache_writer_loop]. rewrite Hwr.
    unfold file_chars. rewrite Hf. simpl. done.
  - intros m [items ->] Hncw.
    cbn [cache_writer_loop].
    destruct items as [|a [|b [|c items]]]; try by eexists _, _.
    unfold write_cache_entry, file_chars. rewrite Hf.
    assert (Hc : content (if rxnav_cache_file_at_EOF rxnav then f else seek_end f)
                 = content f) by (by destruct (rxnav_cache_file_at_EOF rxnav)).
    destruct a as [| |key|]; try (eexists _, _; split; [reflexivity | by simpl]).
    destruct b as [| |payload|]; try (eexists _, _; split; [reflexivity | by simpl]).
    destruct Hncw. by exists key, payload.
  - intros m Hnl Hnk. cbn [cache_writer_loop].
    destruct m as [| |s|items]; try done.
    + rewrite bool_decide_false; [done | congruence].
    + destruct Hnl. by exists items.
Qed.

Lemma cache_writer_message_shapes_witness :
  (∀ key payload, ∃ rxnav',
     cache_writer_loop always_20180816 (PyList [PyStr key; PyStr payload] :: [PyStr "kill"])
       0 fresh_writer
     = cache_writer_loop always_20180816 [PyStr "kill"] 1 rxnav' ∧
     file_chars rxnav' = file_chars fresh_writer +:+ record_text key (always_20180816 0) payload ∧
     rxnav_cache rxnav'
     = <[key := (String.length (file_chars fresh_writer), always_20180816 0)]>
         (rxnav_cache fresh_writer)) ∧
  cache_writer_loop always_20180816 (PyStr "kill" :: [PyStr "kill"]) 0 fresh_writer
  = (Return Killed, 0, fresh_writer) ∧
  (∀ m, is_list m → ¬ is_cache_write m → ∃ e rxnav',
     cache_writer_loop always_20180816 (m :: [PyStr "kill"]) 0 fresh_writer
     = (Raise e, 0, rxnav') ∧
     file_chars rxnav' = file_chars fresh_writer) ∧
  (∀ m, ¬ is_list m → m ≠ PyStr "kill" →
     cache_writer_loop always_20180816 (m :: [PyStr "kill"]) 0 fresh_writer
     = cache_writer_loop always_20180816 [PyStr "kill"] 0 fresh_writer).
Proof.
  apply (cache_writer_message_shapes always_20180816 [PyStr "kill"] 0 fresh_writer
           (TextFile EmptyString 0 true)); reflexivity.
Defined.

(** C7, counterexample: the integer 7 is neither a CacheWrite pair nor
    Stop; the writer drops it and goes on to the next message. *)
Lemma cache_writer_ignores_integer :
  ¬ fatal_to_writer always_20180816 (PyInt 7) fresh_writer ∧
  cache_writer_loop always_20180816
    [PyInt 7; PyList [PyStr "u"; PyStr "{}"]; PyStr "kill"] 0 fresh_writer
  = cache_writer_loop always_20180816
    [PyList [PyStr "u"; PyStr "{}"]; PyStr "kill"] 0 fresh_writer.
Proof.
  split; [|reflexivity].
  intros H. destruct (H [] 0) as (e & count' & rxnav' & He). discriminate.
Qed.

(** ** Workers on an empty segment *)

Section Workers.

Context {Json : Type}.
Variable json_loads : string → option Json.
Variable requests_get : nat → string → option string.
Variable ndc_codes_of : Json → outcome (list string).

Lemma head_last_nonempty {B : Type} (l : list B) :
  l ≠ [] → ∃ x y, head l = Some x ∧ last l = Some y.
Proof.
  intros Hne. destruct l as [|x l]; [done|]. exists x.
  destruct (last (x :: l)) as [y|] eqn:E; [by exists y|].
  by apply last_None in E.
Qed.

Lemma worker_task_passes_barrier loop cache_filename code_list rxnav :
  code_list ≠ [] →
  __init__ cache_filename true true false = Some (Return rxnav) →
  ∃ r tr q, worker_task loop cache_filename code_list
            = Some (r, LogOpened :: CacheSnapshotLoaded :: BarrierWait :: tr, q).
Proof.
  intros Hne Hinit. unfold worker_task.
  destruct (head_last_nonempty code_list Hne) as (x & y & -> & ->).
  rewrite Hinit. destruct (loop code_list (World rxnav [] 0)) as [[u|e] w]; by eexists _, _, _.
Qed.

(** C9. A worker task started on the empty code list raises
    [IndexError] while writing the header of its log: the only event is
    the opening of the log, the cache snapshot is not loaded and the
    barrier is not reached; on a non-empty list, with a cache that loads,
    the task does load its snapshot and reach the barrier.  The partition
    does hand out the empty list: with more workers than codes the last
    segment is empty. *)
Theorem empty_segment_kills_worker {A : Type} (cache_filename : option string)
    (rxcui_list : list A) (worker_process_count : nat) :
  length rxcui_list < worker_process_count →
  worker_task_rxcuis json_loads requests_get cache_filename []
  = Some (Raise IndexError, [LogOpened], []) ∧
  worker_task_ndcs json_loads requests_get ndc_codes_of cache_filename []
  = Some (Raise IndexError, [LogOpened], []) ∧
  (∀ code_list rxnav,
     code_list ≠ [] →
     __init__ cache_filename true true false = Some (Return rxnav) →
     (∃ r tr q, worker_task_rxcuis json_loads requests_get cache_filename code_list
                = Some (r, LogOpened :: CacheSnapshotLoaded :: BarrierWait :: tr, q)) ∧
     (∃ r tr q, worker_task_ndcs json_loads requests_get ndc_codes_of cache_filename code_list
                = Some (r, LogOpened :: CacheSnapshotLoaded :: BarrierWait :: tr, q))) ∧
  ∃ segs, worker_segments worker_process_count rxcui_list = Return segs ∧
          last segs = Some [].
Proof.
  intros Hw. split; [reflexivity|]. split; [reflexivity|]. split.
  { intros code_list rxnav Hne Hinit.
    split; by eapply worker_task_passes_barrier. }
  unfold worker_segments.
  destruct worker_process_count as [|w]; [lia|]. simpl Nat.eqb. cbv iota.
  eexists. split; [reflexivity|].
  rewrite seq_S, fmap_app. simpl. rewrite last_snoc. f_equal.
  unfold slice.
  pose proof (ceil_div_small (length rxcui_list) (S w) Hw) as Hs.
  destruct (ceil_div (length rxcui_list) (S w)) as [|[|s]]; [reflexivity| |lia].
  rewrite drop_ge by lia. apply take_nil.
Qed.

End Workers.

Lemma empty_segment_kills_worker_witness :
  worker_task_rxcuis (Json := string) Some dead_remote (Some one_entry_log) []
  = Some (Raise IndexError, [LogOpened], []) ∧
  worker_task_ndcs (Json := string) Some dead_remote (λ _, Return []) (Some one_entry_log) []
  = Some (Raise IndexError, [LogOpened], []) ∧
  (∀ code_list rxnav,
     code_list ≠ [] →
     __init__ (Some one_entry_log) true true false = Some (Return rxnav) →
     (∃ r tr q, worker_task_rxcuis (Json := string) Some dead_remote (Some one_entry_log)
                  code_list
                = Some (r, LogOpened :: CacheSnapshotLoaded :: BarrierWait :: tr, q)) ∧
     (∃ r tr q, worker_task_ndcs (Json := string) Some dead_remote (λ _, Return [])
                  (Some one_entry_log) code_list
                = Some (r, LogOpened :: CacheSnapshotLoaded :: BarrierWait :: tr, q))) ∧
  ∃ segs, worker_segments 3 [211%Z] = Return segs ∧ last segs = Some [].
Proof.
  apply (empty_segment_kills_worker (Json := string) Some dead_remote (λ _, Return [])
           (Some one_entry_log) [211%Z] 3).
  simpl. lia.
Defined.

(** ** What one call of [get_rxnav_data] does to its process *)

Lemma readline_content f :
  content (readline f).2 = content f ∧ writable (readline f).2 = writable f.
Proof. unfold readline. by destruct (read_line _). Qed.

Lemma third_line_content f p x1 f1 x2 f2 x3 f3 :
  readline (seek p f) = (x1, f1) → readline f1 = (x2, f2) → readline f2 = (x3, f3) →
  content f3 = content f ∧ writable f3 = writable f.
Proof.
  intros H1 H2 H3.
  pose proof (readline_content (seek p f)) as [Ha Ha']. rewrite H1 in Ha, Ha'.
  pose proof (readline_content f1) as [Hb Hb']. rewrite H2 in Hb, Hb'.
  pose proof (readline_content f2) as [Hc Hc']. rewrite H3 in Hc, Hc'.
  simpl in *. split; congruence.
Qed.

Section ClientInvariants.

Context {Json : Type}.
Variable json_loads : string → option Json.
Variable requests_get : nat → string → option string.

Lemma retry_loop_answer n : ∀ request_url i text i',
  retry_loop requests_get n request_url i = (Some text, i') →
  ∃ j, i ≤ j < i' ∧ requests_get j request_url = Some text.
Proof.
  induction n as [|n IH]; intros request_url i text i'; [done|].
  rewrite retry_loop_S. destruct (requests_get i request_url) as [t|] eqn:E.
  - intros [= <- <-]. exists i. split; [lia|done].
  - intros H. destruct (IH _ _ _ _ H) as (j & Hj & Hg). exists j. split; [lia|done].
Qed.

(** The six ways through [get_rxnav_data]. *)
Lemma get_rxnav_data_paths (request_url : string) (w : world) :
  let self := count_request (self_of w) in
  let q := cache_writer_queue w in
  let i := requests_issued w in
  (∃ p d f f', cached (self_of w) request_url = Some (p, d) ∧
     rxnav_cache_file (self_of w) = Some f ∧
     content f' = content f ∧ writable f' = writable f ∧
     get_rxnav_data json_loads requests_get request_url w
     = (loads json_loads (chomp (line_from (content f) p 2)),
        World (set_file f' false (count_cache_hit self)) q i)) ∨
  (∃ p d, cached (self_of w) request_url = Some (p, d) ∧
     rxnav_cache_file (self_of w) = None ∧
     get_rxnav_data json_loads requests_get request_url w
     = (Raise AttributeError, World (count_cache_hit self) q i)) ∨
  (cached (self_of w) request_url = None ∧ fail_if_not_in_cache (self_of w) = true ∧
     get_rxnav_data json_loads requests_get request_url w
     = (Raise (NotCached request_url), World self q i)) ∨
  (cached (self_of w) request_url = None ∧ fail_if_not_in_cache (self_of w) = false ∧
     ∃ i', i < i' ≤ i + retry_limit ∧
     (get_rxnav_data json_loads requests_get request_url w
      = (Raise ConnectionError, World self q i') ∨
      (∃ text j, requests_get j request_url = Some text ∧ json_loads text = None ∧
         get_rxnav_data json_loads requests_get request_url w
         = (Raise JSONDecodeError, World self q i')) ∨
      (∃ text j result, requests_get j request_url = Some text ∧
         json_loads text = Some result ∧
         get_rxnav_data json_loads requests_get request_url w
         = (Return result,
            World (count_rxnav_request self)
                  (if forward_result_to_cache_writer (self_of w)
                   then q ++ [cache_write request_url text] else q) i')))).
Proof.
  unfold cached, get_rxnav_data. simpl.
  destruct (if use_caching (self_of w) then rxnav_cache (self_of w) !! request_url else None)
    as [[p d]|] eqn:Hhit.
  - destruct (rxnav_cache_file (self_of w)) as [f|] eqn:Hf.
    + left.
      destruct (third_line_after_seek f p) as (x1 & f1 & x2 & f2 & f3 & H1 & H2 & H3).
      destruct (third_line_content f p _ _ _ _ _ _ H1 H2 H3) as [Hc Hw].
      rewrite H1, H2, H3. by exists p, d, f, f3.
    + right; left. by exists p, d.
  - right; right.
    destruct (fail_if_not_in_cache (self_of w)) eqn:Hs; [by left|].
    right. split; [done|]. split; [done|].
    pose proof (retry_loop_issued requests_get 39 request_url (requests_issued w)) as Hi.
    change (S 39) with retry_limit in Hi.
    destruct (retry_loop requests_get retry_limit request_url (requests_issued w))
      as [[text|] i'] eqn:Hr.
    + exists i'. split; [done|].
      destruct (retry_loop_answer _ _ _ _ _ Hr) as (j & _ & Hg).
      destruct (json_loads text) as [result|] eqn:Hj.
      * right; right. by exists text, j, result.
      * right; left. by exists text, j.
    + exists i'. split; [done|]. by left.
Qed.

End ClientInvariants.

Section ClientAccounting.

Context {Json : Type}.
Variable json_loads : string → option Json.
Variable requests_get : nat → string → option string.

Ltac fetch_cases request_url w :=
  destruct (get_rxnav_data_paths json_loads requests_get request_url w)
    as [(p & d & f & f' & Hhit & Hf & Hc & Hw & ->)
       |[(p & d & Hhit & Hf & ->)
        |[(Hhit & Hs & ->)
         |(Hhit & Hs & i' & Hi &
           [->|[(text & j & Hg & Hj & ->)|(text & j & result & Hg & Hj & ->)]])]]].

(** X1. A call of [get_rxnav_data] never changes the index of its object
    nor the characters of the cache file, whatever its outcome: what was
    a hit stays a hit and what was a miss stays a miss (an answer fetched
    from the remote is not remembered by the process that fetched it). *)
Theorem get_rxnav_data_keeps_snapshot (request_url : string) (w : world) :
  let w' := (get_rxnav_data json_loads requests_get request_url w).2 in
  rxnav_cache (self_of w') = rxnav_cache (self_of w) ∧
  file_chars (self_of w') = file_chars (self_of w) ∧
  ∀ other, cached (self_of w') other = cached (self_of w) other.
Proof.
  fetch_cases request_url w; simpl; unfold file_chars, cached; simpl;
    rewrite ?Hf; simpl; rewrite ?Hc; done.
Qed.

(** X2. The counters of the object: every call counts one logical
    request; a cache hit counts one hit and no REST call; a miss counts
    one REST call exactly when the call returns a value, and none when it
    raises. *)
Theorem get_rxnav_data_counters (request_url : string) (w : world) :
  let '(r, w') := get_rxnav_data json_loads requests_get request_url w in
  request_count (self_of w') = S (request_count (self_of w)) ∧
  (is_Some (cached (self_of w) request_url) →
     rxnav_cache_hits (self_of w') = S (rxnav_cache_hits (self_of w)) ∧
     rxnav_request_count (self_of w') = rxnav_request_count (self_of w)) ∧
  (cached (self_of w) request_url = None →
     rxnav_cache_hits (self_of w') = rxnav_cache_hits (self_of w) ∧
     rxnav_request_count (self_of w')
     = rxnav_request_count (self_of w) + (if returned r then 1 else 0)).
Proof.
  fetch_cases request_url w; simpl; rewrite Hhit;
    (split; [done|]); (split; [intros [? ?] | intros ?]); try done;
    simpl; split; (done || lia).
Qed.

(** X3. A call issues at most 40 remote requests, and none at all on a
    cache hit or in strict mode. *)
Theorem get_rxnav_data_remote_budget (request_url : string) (w : world) :
  let w' := (get_rxnav_data json_loads requests_get request_url w).2 in
  requests_issued w ≤ requests_issued w' ≤ requests_issued w + 40 ∧
  (is_Some (cached (self_of w) request_url) ∨ fail_if_not_in_cache (self_of w) = true →
   requests_issued w' = requests_issued w).
Proof.
  unfold retry_limit in *.
  fetch_cases request_url w; simpl; (split; [unfold retry_limit in *; lia|]);
    intros [[? Hx]|Hx]; try done; congruence.
Qed.

(** X4. The queue to the cache writer: a call leaves it alone when it
    raises, when it is answered from the cache and when forwarding is
    off; otherwise it appends exactly one message, the pair of the
    request key and a text that the remote answered for that key and
    whose decoding is the value the call returns. *)
Theorem get_rxnav_data_forwarding (request_url : string) (w : world) :
  let '(r, w') := get_rxnav_data json_loads requests_get request_url w in
  (returned r = false ∨ is_Some (cached (self_of w) request_url) ∨
   forward_result_to_cache_writer (self_of w) = false →
   cache_writer_queue w' = cache_writer_queue w) ∧
  (∀ result, r = Return result →
     cached (self_of w) request_url = None →
     forward_result_to_cache_writer (self_of w) = true →
     ∃ text j, requests_get j request_url = Some text ∧
               json_loads text = Some result ∧
               cache_writer_queue w'
               = cache_writer_queue w ++ [cache_write request_url text]).
Proof.
  fetch_cases request_url w; simpl; rewrite ?Hhit; split; try done.
  - intros [Hx|[[? Hx]|Hx]]; try done. by rewrite Hx.
  - intros res [= <-] _ Hfw. rewrite Hfw. by exists text, j.
Qed.

End ClientAccounting.

(** ** What a loaded index says about the file *)

Lemma read_line_shape s :
  ∃ k, no_break k = true ∧ ((read_line s).1 = k +:+ newline ∨ (read_line s).1 = k).
Proof.
  induction s as [|a t IH].
  - exists EmptyString. split; [done|]. by right.
  - simpl. destruct (is_LF a) eqn:Ha.
    { exists EmptyString. split; [done|]. by left. }
    destruct (is_CR a) eqn:Hb.
    { exists EmptyString. split; [done|].
      destruct t as [|b t']; [by left|]. destruct (is_LF b); by left. }
    destruct IH as (k & Hk & Hl). destruct (read_line t) as [l n]. simpl in *.
    exists (String a k). split.
    + simpl. by rewrite Ha, Hb.
    + destruct Hl as [->| ->]; [by left | by right].
Qed.

Lemma lines_at_Forall (Q : nat → string → Prop) :
  (∀ s off, s ≠ EmptyString → Q off (read_line s).1) →
  ∀ s off, Forall (λ p, Q p.1 p.2) (lines_at off s).
Proof.
  intros HQ s.
  assert (Hb : ∀ k s off, String.length s ≤ k → Forall (λ p, Q p.1 p.2) (lines_at off s)).
  { clear s. induction k as [|k IH]; intros s off Hle.
    { destruct s; [constructor | simpl in Hle; lia]. }
    destruct s as [|a t]; [constructor|].
    destruct (read_line_lines (String a t) off) as (l & n & Hr & _ & Hn & Hn' & Hl); [done|].
    rewrite Hl. constructor.
    - specialize (HQ (String a t) off ltac:(done)). by rewrite Hr in HQ.
    - apply IH. rewrite string_drop_length. simpl in *. lia. }
  eauto.
Qed.

Lemma rstrip_LF_no_break k : no_break k = true → rstrip LF k = k.
Proof.
  induction k as [|a k IH]; intros Hk; [done|].
  simpl in Hk. apply andb_true_iff in Hk as [Ha Hk].
  apply andb_true_iff in Ha as [Ha _]. apply negb_true_iff in Ha.
  cbn [rstrip]. rewrite IH by done.
  unfold is_LF in Ha. rewrite Ha. by destruct k.
Qed.

Lemma chomp_no_break k : no_break k = true → chomp k = k.
Proof. intros Hk. unfold chomp. by rewrite rstrip_LF_no_break, rstrip_CR_no_break. Qed.

Lemma lines_at_chomp s off :
  Forall (λ p, no_break (chomp p.2) = true) (lines_at off s).
Proof.
  apply (lines_at_Forall (λ _ l, no_break (chomp l) = true)).
  intros s' off' _. destruct (read_line_shape s') as (k & Hk & [-> | ->]).
  - by rewrite chomp_line.
  - by rewrite chomp_no_break.
Qed.

Lemma lines_at_suffix L1 : ∀ s off o l L2,
  lines_at off s = L1 ++ (o, l) :: L2 →
  off ≤ o ∧ o - off < String.length s ∧
  lines_at o (string_drop (o - off) s) = (o, l) :: L2.
Proof.
  induction L1 as [|a L1 IH]; intros s off o l L2 H.
  - assert (Hne : s ≠ EmptyString) by (by intros ->).
    destruct (read_line_lines s off Hne) as (l0 & n & _ & _ & Hn & Hn' & Hl).
    rewrite Hl in H. simpl in H. injection H; intros <- <- <-.
    rewrite Nat.sub_diag. simpl. repeat split; (lia || done).
  - assert (Hne : s ≠ EmptyString) by (by intros ->).
    destruct (read_line_lines s off Hne) as (l0 & n & _ & _ & Hn & Hn' & Hl).
    rewrite Hl in H. simpl in H. injection H; intros Hrest _.
    destruct (IH _ _ _ _ _ Hrest) as (Hle & Hlt & Hlines).
    rewrite string_drop_length in Hlt.
    replace (o - off) with (n + (o - (off + n))) by lia.
    rewrite string_drop_add. repeat split; (lia || done).
Qed.

Lemma records_elem ls : ∀ r,
  r ∈ records ls →
  ∃ L1 o l1 o2 l2 o3 l3 L2,
    ls = L1 ++ (o, l1) :: (o2, l2) :: (o3, l3) :: L2 ∧
    r = CacheRecord o (chomp l1) (chomp l2) (chomp l3).
Proof.
  induction ls as [|a|a b|[o l1] [o2 l2] [o3 l3] ls IH] using list_ind3; intros r Hr.
  - by apply elem_of_nil in Hr.
  - destruct a. by apply elem_of_nil in Hr.
  - destruct a, b. by apply elem_of_nil in Hr.
  - cbn [records] in Hr. apply elem_of_cons in Hr as [->|Hr].
    + by exists [], o, l1, o2, l2, o3, l3, ls.
    + destruct (IH r Hr) as (L1 & o' & x1 & o2' & x2 & o3' & x3 & L2 & -> & ->).
      by exists ((o, l1) :: (o2, l2) :: (o3, l3) :: L1), o', x1, o2', x2, o3', x3, L2.
Qed.

Lemma index_of_lookup rs : ∀ (start : cache_index) k v,
  index_of rs start !! k = Some v →
  start !! k = Some v ∨
  ∃ r, r ∈ rs ∧ rec_key r = k ∧ v = (rec_offset r, rec_date r).
Proof.
  unfold index_of. induction rs as [|r rs IH]; intros start k v H; [by left|].
  simpl in H. apply IH in H as [H|(r' & Hr' & Hk & Hv)].
  - destruct (decide (rec_key r = k)) as [<-|Hne].
    + rewrite lookup_insert_eq in H. injection H; intros <-.
      right. exists r. split; [by left|done].
    + rewrite lookup_insert_ne in H by done. by left.
  - right. exists r'. split; [by right|done].
Qed.

Lemma init_index chars ro fw st self :
  __init__ (Some chars) ro fw st = Some (Return self) →
  records_ok (file_lines chars) ∧
  rxnav_cache self = index_of (records (file_lines chars)) ∅ ∧
  file_chars self = chars.
Proof.
  intros H. pose proof (scan_records (file_lines chars) ∅ 0) as Hs.
  destruct (scan (file_lines chars) ∅ 0) as [idx|e] eqn:E.
  - destruct (init_loaded chars ro fw st idx E) as (f & Hi & Hc & _).
    rewrite Hi in H. injection H; intros <-.
    destruct Hs as [Hok ->]. unfold file_chars. simpl. done.
  - rewrite (init_failed chars ro fw st e E) in H. discriminate.
Qed.

(** An entry of a loaded index names a complete record of the file. *)
Lemma loaded_entry_record chars ro fw st self k off d :
  __init__ (Some chars) ro fw st = Some (Return self) →
  rxnav_cache self !! k = Some (off, d) →
  ∃ l1 o2 l2 o3 l3 L2,
    lines_at off (string_drop off chars) = (off, l1) :: (o2, l2) :: (o3, l3) :: L2 ∧
    off < String.length chars ∧
    chomp l1 = k ∧ chomp l2 = d ∧ String.length d = 8 ∧
    no_break k = true ∧ no_break d = true ∧ 0 < String.length l3.
Proof.
  intros Hinit Hk.
  destruct (init_index _ _ _ _ _ Hinit) as ([Hmod Hdates] & Hidx & _).
  rewrite Hidx in Hk.
  apply index_of_lookup in Hk as [Hk|(r & Hr & Hkey & Hv)]; [by rewrite lookup_empty in Hk|].
  assert (Hd8 : String.length (rec_date r) = 8).
  { rewrite Forall_forall in Hdates. by apply Hdates. }
  destruct (records_elem _ _ Hr) as (L1 & o & l1 & o2 & l2 & o3 & l3 & L2 & Hls & ->).
  simpl in *. injection Hv; intros -> ->. subst k.
  destruct (lines_at_suffix L1 chars 0 _ _ _ Hls) as (_ & Hlt & Hlines).
  rewrite Nat.sub_0_r in Hlt, Hlines.
  pose proof (lines_at_chomp chars 0) as Hch. unfold file_lines in Hls.
  rewrite Hls in Hch. apply Forall_app in Hch as [_ Hch].
  apply Forall_cons in Hch as [Hc1 Hch]. apply Forall_cons in Hch as [Hc2 Hch].
  assert (Hl3 : 0 < String.length l3).
  { pose proof (lines_at_Forall (λ _ l, 0 < String.length l)) as Hpos.
    specialize (Hpos ltac:(intros s' off' Hne;
      destruct (read_line_lines s' off' Hne) as (l0 & n & -> & Hl0 & _); exact Hl0) chars 0).
    rewrite Hls in Hpos. apply Forall_app in Hpos as [_ Hpos].
    apply Forall_cons in Hpos as [_ Hpos]. apply Forall_cons in Hpos as [_ Hpos].
    by apply Forall_cons in Hpos as [Hpos _]. }
  exists l1, o2, l2, o3, l3, L2. simpl in *. repeat split; done.
Qed.



(** X6. In a loaded index two different keys never share an offset. *)
Theorem loaded_index_offsets_distinct (chars : string) (ro fw st : bool)
    (self : rxnav_rest_api_mp) (k1 k2 : string) (off : nat) (d1 d2 : string) :
  __init__ (Some chars) ro fw st = Some (Return self) →
  rxnav_cache self !! k1 = Some (off, d1) →
  rxnav_cache self !! k2 = Some (off, d2) →
  k1 = k2.
Proof.
  intros Hinit H1 H2.
  destruct (loaded_entry_record _ _ _ _ _ _ _ _ Hinit H1)
    as (l1 & ? & ? & ? & ? & ? & Hl & _ & <- & _).
  destruct (loaded_entry_record _ _ _ _ _ _ _ _ Hinit H2)
    as (l1' & ? & ? & ? & ? & ? & Hl' & _ & <- & _).
  rewrite Hl in Hl'. congruence.
Qed.

Lemma loaded_index_offsets_distinct_witness : "u" = "u".
Proof.
  apply (loaded_index_offsets_distinct one_entry_log true true false
           (one_entry_holder true true false) "u" "u" 0 "20180816" "20180816");
    reflexivity.
Defined.

(** ** The cache writer over a whole run *)

Lemma ends_LF_snoc s : ends_LF (s +:+ newline) = true.
Proof.
  induction s as [|a t IH]; [done|].
  rewrite string_app_cons. destruct t as [|b t']; [done|].
  rewrite string_app_cons in *. exact IH.
Qed.

Lemma ends_LF_record chars key data_date payload :
  ends_LF (chars +:+ record_text key data_date payload) = true.
Proof.
  unfold record_text.
  replace (chars +:+ key +:+ newline +:+ data_date +:+ newline +:+ payload +:+ newline)
    with ((chars +:+ key +:+ newline +:+ data_date +:+ newline +:+ payload) +:+ newline)
    by (by rewrite !string_app_assoc).
  apply ends_LF_snoc.
Qed.

Lemma in_sync_scan rxnav :
  in_sync rxnav ↔ scan (file_lines (file_chars rxnav)) ∅ 0 = Return (rxnav_cache rxnav).
Proof.
  unfold in_sync. split.
  - intros (reader & Hinit & Hidx).
    destruct (scan (file_lines (file_chars rxnav)) ∅ 0) as [idx|e] eqn:E.
    + destruct (init_loaded _ true false false idx E) as (f & Hi & _).
      rewrite Hi in Hinit. injection Hinit; intros <-. simpl in Hidx. by rewrite Hidx.
    + rewrite (init_failed _ true false false e E) in Hinit. discriminate.
  - intros E. destruct (init_loaded _ true false false _ E) as (f & Hi & _).
    eexists. split; [exact Hi|done].
Qed.

Lemma scan_well_formed chars idx :
  scan (file_lines chars) ∅ 0 = Return idx → well_formed_log chars.
Proof.
  intros E. pose proof (scan_records (file_lines chars) ∅ 0) as Hs.
  rewrite E in Hs. by destruct Hs.
Qed.

(** One cache write on a writer in working order. *)
Lemma write_keeps_writer_ok data_date key text rxnav :
  writer_ok rxnav → date8 data_date → no_break key = true → no_break text = true →
  ∃ rxnav',
    write_cache_entry data_date (PyStr key) (PyStr text) rxnav = (Return PyNone, rxnav') ∧
    writer_ok rxnav' ∧
    file_chars rxnav' = file_chars rxnav +:+ record_text key data_date text ∧
    rxnav_cache rxnav' !! key = Some (String.length (file_chars rxnav), data_date).
Proof.
  intros ((f & Hf & Hw & Heof) & [Hwf Hend] & Hsync) [Hd Hd8] Hk Ht.
  pose proof (write_cache_entry_on_writable data_date key text rxnav f Hf Hw Heof) as Hwr.
  eexists. split; [exact Hwr|].
  apply in_sync_scan in Hsync. unfold file_chars in *. rewrite Hf in *. simpl.
  pose proof (scan_grown _ key data_date text _ Hend Hk Hd Ht Hd8 Hsync) as Hs'.
  split; [|split; [done | apply lookup_insert_eq]]. split; [|split].
  - eexists. split; [reflexivity|]. by split.
  - split; [by eapply scan_well_formed | right; apply ends_LF_record].
  - apply in_sync_scan. unfold file_chars. simpl. exact Hs'.
Qed.

Lemma init_writer_ok chars fw st :
  clean_log chars →
  ∃ rxnav, __init__ (Some chars) false fw st = Some (Return rxnav) ∧
           writer_ok rxnav ∧ file_chars rxnav = chars.
Proof.
  intros [Hwf Hend]. pose proof (well_formed_log_scan chars Hwf) as Hs.
  destruct (init_loaded chars false fw st _ Hs) as (f & Hi & Hc & Hw & Hp).
  eexists. split; [exact Hi|]. unfold writer_ok, file_chars. simpl. rewrite Hc.
  split; [|done]. split; [|split; [done|]].
  - exists f. repeat split; try done. intros _. congruence.
  - apply in_sync_scan. unfold file_chars. simpl. by rewrite Hc.
Qed.

Lemma cache_writer_loop_ok now msgs : ∀ count rxnav,
  writer_ok rxnav →
  (∀ n, date8 (now n)) →
  Forall writer_input_ok msgs →
  ∃ r count' rxnav',
    cache_writer_loop now msgs count rxnav = (Return r, count', rxnav') ∧
    writer_ok rxnav' ∧ count ≤ count'.
Proof.
  induction msgs as [|m msgs IH]; intros count rxnav Hok Hnow Hmsgs.
  { by exists AwaitingMessage, count, rxnav. }
  apply Forall_cons in Hmsgs as [Hm Hmsgs]. cbn [cache_writer_loop].
  destruct Hm as [(key & text & -> & Hk & Ht)|Hnl].
  - destruct (write_keeps_writer_ok (now count) key text rxnav Hok (Hnow count) Hk Ht)
      as (rxnav1 & Hwr & Hok1 & _).
    unfold cache_write. rewrite Hwr.
    destruct (IH (S count) rxnav1 Hok1 Hnow Hmsgs) as (r & count' & rxnav' & Hl & Hok' & Hc).
    exists r, count', rxnav'. split; [done|]. split; [done | lia].
  - destruct m as [| |s|items].
    + by apply IH.
    + by apply IH.
    + case_bool_decide; [by exists Killed, count, rxnav | by apply IH].
    + destruct Hnl. by exists items.
Qed.

(** X7. The cache writer task, started on a clean log and fed
    cache writes whose key and text hold no line break (and any messages
    that are no lists), with eight-character dates from the clock, never
    raises; it leaves a clean log, and the index it holds at the end is
    exactly the index a fresh process loads from the file. *)
Theorem cache_writer_task_in_sync (now : nat → string) (chars : string)
    (messages : list pyobj) :
  clean_log chars →
  (∀ n, date8 (now n)) →
  Forall writer_input_ok messages →
  ∃ r count rxnav,
    cache_writer_task now (Some chars) messages = Some (Return r, count, Some rxnav) ∧
    clean_log (file_chars rxnav) ∧ in_sync rxnav.
Proof.
  intros Hclean Hnow Hmsgs. unfold cache_writer_task.
  destruct (init_writer_ok chars false false Hclean) as (rxnav0 & Hinit & Hok & _).
  rewrite Hinit.
  destruct (cache_writer_loop_ok now messages 0 rxnav0 Hok Hnow Hmsgs)
    as (r & count & rxnav & Hl & (_ & Hc & Hs) & _).
  rewrite Hl. by exists r, count, rxnav.
Qed.

Lemma cache_writer_task_in_sync_witness :
  ∃ r count rxnav,
    cache_writer_task always_20180816 (Some one_entry_log)
      [cache_write "v" "[]"; PyInt 7; PyStr "kill"]
    = Some (Return r, count, Some rxnav) ∧
    clean_log (file_chars rxnav) ∧ in_sync rxnav.
Proof.
  apply (cache_writer_task_in_sync always_20180816 one_entry_log
           [cache_write "v" "[]"; PyInt 7; PyStr "kill"]).
  - split; [|by right]. split; [reflexivity|]. repeat constructor.
  - intros n. by split.
  - apply Forall_cons_2; [left; by exists "v", "[]"|].
    apply Forall_cons_2; [right; intros [items Hi]; discriminate|].
    apply Forall_cons_2; [right; intros [items Hi]; discriminate|].
    apply Forall_nil_2.
Defined.

(** X8. A run of cache writes followed by ['kill'], on a writer with a
    writable file: every pair is appended as a record in arrival order,
    the [i]-th dated by the clock at that moment, the count goes up by the
    number of pairs, the loop is left by [break], and whatever is queued
    behind ['kill'] is not looked at. *)
Theorem cache_writer_loop_writes (now : nat → string) (kps : list (string * string)) :
  ∀ (rest : list pyobj) (count : nat) (rxnav : rxnav_rest_api_mp) (f : text_file),
  rxnav_cache_file rxnav = Some f →
  writable f = true →
  (rxnav_cache_file_at_EOF rxnav = true → pos f = String.length (content f)) →
  ∃ rxnav',
    cache_writer_loop now (((λ kp, cache_write kp.1 kp.2) <$> kps) ++ PyStr "kill" :: rest)
      count rxnav
    = (Return Killed, count + length kps, rxnav') ∧
    file_chars rxnav' = file_chars rxnav +:+ written now count kps.
Proof.
  induction kps as [|[key text] kps IH]; intros rest count rxnav f Hf Hw Heof.
  - exists rxnav. simpl. rewrite Nat.add_0_r, string_app_empty_r. done.
  - pose proof (write_cache_entry_on_writable (now count) key text rxnav f Hf Hw Heof) as Hwr.
    set (rxnav1 := set_cache _ _) in Hwr.
    destruct (IH rest (S count) rxnav1
                (TextFile (content f +:+ record_text key (now count) text)
                   (String.length (content f +:+ record_text key (now count) text)) true))
      as (rxnav' & Hl & Hc); [done..|].
    exists rxnav'. rewrite fmap_cons. cbn [app cache_writer_loop fst snd cache_write].
    rewrite Hwr, Hl. split; [f_equal; f_equal; simpl; lia|].
    rewrite Hc. unfold file_chars. rewrite Hf. simpl.
    by rewrite string_app_assoc.
Qed.

Lemma cache_writer_loop_writes_witness :
  ∃ rxnav',
    cache_writer_loop always_20180816
      (((λ kp, cache_write kp.1 kp.2) <$> [("u", "{}"); ("v", "[]")])
         ++ PyStr "kill" :: [cache_write "w" "0"]) 0 fresh_writer
    = (Return Killed, 0 + length [("u", "{}"); ("v", "[]")], rxnav') ∧
    file_chars rxnav'
    = file_chars fresh_writer +:+ written always_20180816 0 [("u", "{}"); ("v", "[]")].
Proof.
  apply (cache_writer_loop_writes always_20180816 [("u", "{}"); ("v", "[]")]
           [cache_write "w" "0"] 0 fresh_writer (TextFile EmptyString 0 true));
    reflexivity.
Defined.

(** X9. The loop of the cache writer does the same on a sequence of
    messages as on the sequence with every message that is neither a list
    nor ['kill'] taken out. *)
Theorem cache_writer_loop_skips (now : nat → string) (messages : list pyobj) :
  ∀ (count : nat) (rxnav : rxnav_rest_api_mp),
  cache_writer_loop now messages count rxnav
  = cache_writer_loop now (filter (λ m, acted_on m = true) messages) count rxnav.
Proof.
  induction messages as [|m messages IH]; intros count rxnav; [done|].
  destruct m as [| |s|items].
  - rewrite filter_cons_False by done. apply IH.
  - rewrite filter_cons_False by done. apply IH.
  - destruct (decide (s = "kill")) as [->|Hne].
    + rewrite filter_cons_True by done. reflexivity.
    + rewrite filter_cons_False by (simpl; by rewrite bool_decide_false).
      cbn [cache_writer_loop]. rewrite bool_decide_false by done. apply IH.
  - rewrite filter_cons_True by done. cbn [cache_writer_loop].
    destruct items as [|a [|b [|c items]]]; try done.
    destruct (write_cache_entry (now count) a b rxnav) as [[v|e] rxnav1]; [apply IH|done].
Qed.

Lemma write_cache_entry_grows data_date request_url json_string rxnav :
  ∃ tail,
    file_chars (write_cache_entry data_date request_url json_string rxnav).2
    = file_chars rxnav +:+ tail ∧
    dom (rxnav_cache rxnav)
    ⊆ dom (rxnav_cache (write_cache_entry data_date request_url json_string rxnav).2).
Proof.
  unfold write_cache_entry, file_chars.
  destruct (rxnav_cache_file rxnav) as [f|] eqn:Hf; simpl.
  2:{ rewrite Hf. by exists EmptyString. }
  assert (Hc : content (if rxnav_cache_file_at_EOF rxnav then f else seek_end f) = content f)
    by (by destruct (rxnav_cache_file_at_EOF rxnav)).
  destruct request_url as [| |url|]; simpl;
    try (rewrite Hc; exists EmptyString; by rewrite string_app_empty_r).
  destruct json_string as [| |json|]; simpl;
    try (rewrite Hc; exists EmptyString; by rewrite string_app_empty_r).
  unfold print_to.
  destruct (writable (if rxnav_cache_file_at_EOF rxnav then f else seek_end f)); simpl.
  - rewrite Hc. eexists. split; [reflexivity|]. rewrite dom_insert. set_solver.
  - rewrite Hc. exists EmptyString. by rewrite string_app_empty_r.
Qed.

(** X10. Whatever the messages and whatever the state of the object,
    the loop of the cache writer only appends: the characters the file had
    are a prefix of the characters it has afterwards, every key of the
    index is still a key, and the count does not go down. *)
Theorem cache_writer_loop_append_only (now : nat → string) (messages : list pyobj) :
  ∀ (count : nat) (rxnav : rxnav_rest_api_mp),
  let '(r, count', rxnav') := cache_writer_loop now messages count rxnav in
  (∃ tail, file_chars rxnav' = file_chars rxnav +:+ tail) ∧
  dom (rxnav_cache rxnav) ⊆ dom (rxnav_cache rxnav') ∧
  count ≤ count'.
Proof.
  induction messages as [|m messages IH]; intros count rxnav.
  { simpl. split; [|done]. exists EmptyString. by rewrite string_app_empty_r. }
  cbn [cache_writer_loop].
  assert (Hrefl : (∃ tail, file_chars rxnav = file_chars rxnav +:+ tail) ∧
                  dom (rxnav_cache rxnav) ⊆ dom (rxnav_cache rxnav) ∧ count ≤ count).
  { split; [|done]. exists EmptyString. by rewrite string_app_empty_r. }
  destruct m as [| |s|items]; try apply IH.
  - case_bool_decide; [done | apply IH].
  - destruct items as [|a [|b [|c items]]]; try done.
    destruct (write_cache_entry_grows (now count) a b rxnav) as (tail & Ht & Hd).
    destruct (write_cache_entry (now count) a b rxnav) as [[v|e] rxnav1]; simpl in *.
    + specialize (IH (S count) rxnav1).
      destruct (cache_writer_loop now messages (S count) rxnav1) as [[r count'] rxnav'].
      destruct IH as ([tail' Ht'] & Hd' & Hc).
      split; [|split; [etrans; [exact Hd | exact Hd'] | lia]].
      exists (tail +:+ tail'). by rewrite Ht', Ht, string_app_assoc.
    + split; [by exists tail | done].
Qed.

(** ** From a worker's fetch to a later cache hit *)

Section Pipeline.

Context {Json : Type}.
Variable json_loads : string → option Json.
Variable requests_get : nat → string → option string.

(** X11. The way of an answer through the system.  A worker with
    forwarding on fetches a key it has not cached and gets a value; the
    remote answers on one line and the key holds no line break.  Then the
    worker has queued one message; a cache writer in working order that
    takes this message (and then ['kill']) appends it and stops; and a
    fresh strict read-only process that loads the file afterwards gets,
    for the same key, the same value from the cache, without a remote
    call. *)
Theorem fetched_answer_is_replayed (request_url : string) (w w' : world) (result : Json)
    (now : nat → string) (count : nat) (rxnav : rxnav_rest_api_mp) :
  cached (self_of w) request_url = None →
  forward_result_to_cache_writer (self_of w) = true →
  get_rxnav_data json_loads requests_get request_url w = (Return result, w') →
  (∀ i u t, requests_get i u = Some t → no_break t = true) →
  no_break request_url = true →
  writer_ok rxnav →
  date8 (now count) →
  ∃ m rxnav' reader w'',
    cache_writer_queue w' = cache_writer_queue w ++ [m] ∧
    cache_writer_loop now [m; PyStr "kill"] count rxnav = (Return Killed, S count, rxnav') ∧
    __init__ (Some (file_chars rxnav')) true false true = Some (Return reader) ∧
    get_rxnav_data json_loads requests_get request_url (World reader [] 0)
    = (Return result, w'') ∧
    requests_issued w'' = 0.
Proof.
  intros Hmiss Hfw Hget Hline Hurl Hok Hdate.
  destruct (get_rxnav_data_paths json_loads requests_get request_url w)
    as [(p & d & f & f' & Hhit & _)
       |[(p & d & Hhit & _)
        |[(_ & _ & E)
         |(_ & _ & i' & _ &
           [E|[(text & j & _ & _ & E)|(text & j & res & Hg & Hj & E)]])]]];
    try congruence.
  rewrite E in Hget. injection Hget; intros <- <-. simpl. rewrite Hfw.
  pose proof (Hline _ _ _ Hg) as Htext.
  destruct (write_keeps_writer_ok (now count) request_url text rxnav Hok Hdate Hurl Htext)
    as (rxnav' & Hwr & (_ & _ & Hsync) & Hchars & Hidx).
  apply in_sync_scan in Hsync.
  destruct (init_loaded _ true false true _ Hsync) as (g & Hinit & Hg' & _).
  destruct (get_rxnav_data_hit json_loads requests_get request_url
              (World (RxNav true false true true (rxnav_cache rxnav') (Some g) true 0 0 0) [] 0)
              (String.length (file_chars rxnav)) (now count) g eq_refl Hidx eq_refl)
    as (g' & Hhit).
  eexists (cache_write request_url text), rxnav', _, _.
  split; [done|]. split.
  { cbn [cache_writer_loop cache_write]. rewrite Hwr. reflexivity. }
  split; [exact Hinit|]. rewrite Hhit. simpl. rewrite Hg', Hchars.
  destruct Hdate as [Hd _].
  rewrite line_from_grown, chomp_line by done.
  unfold loads. rewrite Hj. by split.
Qed.

End Pipeline.

Lemma fetched_answer_is_replayed_witness :
  ∃ m rxnav' reader w'',
    cache_writer_queue
      (get_rxnav_data (Json := string) Some flaky_remote "v"
         (World (one_entry_holder true true false) [] 0)).2
    = [] ++ [m] ∧
    cache_writer_loop always_20180816 [m; PyStr "kill"] 0 fresh_writer
    = (Return Killed, 1, rxnav') ∧
    __init__ (Some (file_chars rxnav')) true false true = Some (Return reader) ∧
    get_rxnav_data (Json := string) Some flaky_remote "v" (World reader [] 0)
    = (Return "{}", w'') ∧
    requests_issued w'' = 0.
Proof.
  apply (fetched_answer_is_replayed (Json := string) Some flaky_remote "v"
           (World (one_entry_holder true true false) [] 0) _ "{}"
           always_20180816 0 fresh_writer); try reflexivity.
  - intros i u t. unfold flaky_remote. destruct (i <? 2); [done|]. by intros [= <-].
  - split; [|split].
    + exists (TextFile EmptyString 0 true). by repeat split.
    + split; [|by left]. split; [reflexivity | constructor].
    + eexists. split; reflexivity.
  - by split.
Defined.

(** ** The loops of the workers *)

Section WorkerLoops.

Context {Json : Type}.
Variable json_loads : string → option Json.
Variable requests_get : nat → string → option string.
Variable ndc_codes_of : Json → outcome (list string).

(** One call, as the loops see it. *)
Lemma get_rxnav_data_step (request_url : string) (w : world) :
  let '(r, w') := get_rxnav_data json_loads requests_get request_url w in
  (∀ other, cached (self_of w') other = cached (self_of w) other) ∧
  forward_result_to_cache_writer (self_of w') = forward_result_to_cache_writer (self_of w) ∧
  request_count (self_of w') = S (request_count (self_of w)) ∧
  (is_Some (cached (self_of w) request_url) →
     requests_issued w' = requests_issued w ∧
     cache_writer_queue w' = cache_writer_queue w) ∧
  (returned r = true → forward_result_to_cache_writer (self_of w) = true →
     omap message_key (cache_writer_queue w')
     = omap message_key (cache_writer_queue w)
       ++ (if cached (self_of w) request_url is Some _ then [] else [request_url])).
Proof.
  destruct (get_rxnav_data_paths json_loads requests_get request_url w)
    as [(p & d & f & f' & Hhit & Hf & Hc & Hw & ->)
       |[(p & d & Hhit & Hf & ->)
        |[(Hhit & Hs & ->)
         |(Hhit & Hs & i' & Hi &
           [->|[(text & j & Hg & Hj & ->)|(text & j & result & Hg & Hj & ->)]])]]];
    simpl; rewrite Hhit; (split; [done|]); (split; [done|]); (split; [done|]);
    split; try done; try (by intros [? ?]).
  - intros _ _. by rewrite app_nil_r.
  - intros _ ->. by rewrite omap_app.
Qed.

Lemma get_allrelated_key rxcui w :
  get_allrelated json_loads requests_get rxcui w
  = get_rxnav_data json_loads requests_get (allrelated_url rxcui) w.
Proof. reflexivity. Qed.

Lemma get_historical_rxcui_key rxcui w :
  get_historical_rxcui json_loads requests_get rxcui w
  = get_rxnav_data json_loads requests_get (history_url rxcui) w.
Proof. reflexivity. Qed.

Lemma rxcuis_loop_quiet codes : ∀ w,
  Forall (λ u, is_Some (cached (self_of w) u)) (rxcui_keys codes) →
  let w' := (rxcuis_loop json_loads requests_get codes w).2 in
  requests_issued w' = requests_issued w ∧
  cache_writer_queue w' = cache_writer_queue w.
Proof.
  induction codes as [|c codes IH]; intros w Hall; [done|].
  unfold rxcui_keys in Hall. rewrite bind_cons in Hall.
  apply Forall_app in Hall as [Hc Hall].
  apply Forall_cons in Hc as [Ha Hc]. apply Forall_cons in Hc as [Hh _].
  cbn [rxcuis_loop]. rewrite get_allrelated_key.
  pose proof (get_rxnav_data_step (allrelated_url c) w) as H1.
  destruct (get_rxnav_data json_loads requests_get (allrelated_url c) w) as [[v|e] w1].
  2:{ destruct H1 as (_ & _ & _ & H1 & _). by apply H1. }
  destruct H1 as (Hk1 & _ & _ & H1 & _). destruct (H1 Ha) as [Hi1 Hq1].
  rewrite get_historical_rxcui_key.
  pose proof (get_rxnav_data_step (history_url c) w1) as H2.
  destruct (get_rxnav_data json_loads requests_get (history_url c) w1) as [[v2|e] w2].
  2:{ destruct H2 as (_ & _ & _ & H2 & _). rewrite Hk1 in H2. destruct (H2 Hh). simpl.
      split; congruence. }
  destruct H2 as (Hk2 & _ & _ & H2 & _). rewrite Hk1 in H2. destruct (H2 Hh) as [Hi2 Hq2].
  destruct (IH w2) as [Hi Hq].
  { eapply Forall_impl; [exact Hall|]. intros u Hu. simpl in Hu. by rewrite Hk2, Hk1. }
  split; congruence.
Qed.

Lemma ndcs_loop_quiet codes : ∀ w,
  Forall (λ u, is_Some (cached (self_of w) u)) (ndc_keys codes) →
  let w' := (ndcs_loop json_loads requests_get ndc_codes_of codes w).2 in
  requests_issued w' = requests_issued w ∧
  cache_writer_queue w' = cache_writer_queue w.
Proof.
  induction codes as [|c codes IH]; intros w Hall; [done|].
  unfold ndc_keys in Hall. rewrite fmap_cons in Hall.
  apply Forall_cons in Hall as [Hc Hall].
  cbn [ndcs_loop]. unfold get_ndc_codes_for_drug.
  change ("https://rxnav.nlm.nih.gov/REST/rxcui/" +:+ pretty c +:+ "/allhistoricalndcs/json")
    with (ndcs_url c).
  pose proof (get_rxnav_data_step (ndcs_url c) w) as H1.
  destruct (get_rxnav_data json_loads requests_get (ndcs_url c) w) as [[v|e] w1].
  2:{ destruct H1 as (_ & _ & _ & H1 & _). by apply H1. }
  destruct H1 as (Hk1 & _ & _ & H1 & _). destruct (H1 Hc) as [Hi1 Hq1].
  destruct (ndc_codes_of v) as [ndcs|e]; [|done].
  destruct (IH w1) as [Hi Hq].
  { eapply Forall_impl; [exact Hall|]. intros u Hu. simpl in Hu. by rewrite Hk1. }
  split; congruence.
Qed.

(** X12. Replay from the cache.  When the index of a worker holds every
    key its segment asks for, the loop of the worker (of either kind)
    issues no remote request and queues nothing for the cache writer,
    however it ends. *)
Theorem worker_loops_replay (rxcuis drug_rxcuis : list Z) (w : world) :
  Forall (λ u, is_Some (cached (self_of w) u)) (rxcui_keys rxcuis ++ ndc_keys drug_rxcuis) →
  (let w' := (rxcuis_loop json_loads requests_get rxcuis w).2 in
   requests_issued w' = requests_issued w ∧ cache_writer_queue w' = cache_writer_queue w) ∧
  (let w' := (ndcs_loop json_loads requests_get ndc_codes_of drug_rxcuis w).2 in
   requests_issued w' = requests_issued w ∧ cache_writer_queue w' = cache_writer_queue w).
Proof.
  intros Hall. apply Forall_app in Hall as [H1 H2].
  split; [by apply rxcuis_loop_quiet | by apply ndcs_loop_quiet].
Qed.

(** X13. A worker loop over RxCUI codes that runs to its end with
    forwarding on has made two logical requests per code and has queued,
    in the order of its requests, one cache write for every requested key
    that its index did not hold, and none for a key it held. *)
Theorem rxcuis_loop_forwards_misses (codes : list Z) : ∀ (w w' : world),
  forward_result_to_cache_writer (self_of w) = true →
  rxcuis_loop json_loads requests_get codes w = (Return tt, w') →
  omap message_key (cache_writer_queue w')
  = omap message_key (cache_writer_queue w)
    ++ filter (λ u, cached (self_of w) u = None) (rxcui_keys codes) ∧
  request_count (self_of w') = request_count (self_of w) + 2 * length codes.
Proof.
  induction codes as [|c codes IH]; intros w w' Hfw Hrun.
  { injection Hrun; intros <-. simpl. by rewrite app_nil_r, Nat.add_0_r. }
  cbn [rxcuis_loop] in Hrun. rewrite get_allrelated_key in Hrun.
  pose proof (get_rxnav_data_step (allrelated_url c) w) as H1.
  destruct (get_rxnav_data json_loads requests_get (allrelated_url c) w) as [[v|e] w1];
    [|done].
  destruct H1 as (Hk1 & Hf1 & Hr1 & _ & Hq1). specialize (Hq1 eq_refl Hfw).
  rewrite get_historical_rxcui_key in Hrun.
  pose proof (get_rxnav_data_step (history_url c) w1) as H2.
  destruct (get_rxnav_data json_loads requests_get (history_url c) w1) as [[v2|e] w2];
    [|done].
  destruct H2 as (Hk2 & Hf2 & Hr2 & _ & Hq2).
  specialize (Hq2 eq_refl ltac:(congruence)).
  destruct (IH w2 w' ltac:(congruence) Hrun) as [Hq Hr].
  split; [|simpl; lia].
  rewrite Hq, Hq2, Hq1. unfold rxcui_keys. rewrite bind_cons.
  rewrite filter_app. rewrite <- !app_assoc. f_equal.
  rewrite (Hk1 (history_url c)).
  assert (Hfilt : filter (λ u, cached (self_of w2) u = None) (codes ≫= λ rxcui, [allrelated_url rxcui; history_url rxcui])
                  = filter (λ u, cached (self_of w) u = None) (codes ≫= λ rxcui, [allrelated_url rxcui; history_url rxcui])).
  { apply list_filter_iff. intros u. by rewrite Hk2, Hk1. }
  fold (rxcui_keys codes) in *. rewrite Hfilt.
  rewrite app_assoc. f_equal.
  rewrite filter_cons. rewrite filter_cons. rewrite filter_nil.
  destruct (cached (self_of w) (allrelated_url c)), (cached (self_of w) (history_url c));
    repeat case_decide; done.
Qed.

(** X14. A worker task of either kind, given a non-empty segment and a
    cache file that is not a well-formed log, dies with the cache format
    error right after opening its log: it never reaches the barrier. *)
Theorem worker_task_corrupt_cache (chars : string) (code_list : list Z) :
  ¬ well_formed_log chars →
  code_list ≠ [] →
  ∃ e, CacheFormatError e ∧
       worker_task_rxcuis json_loads requests_get (Some chars) code_list
       = Some (Raise e, [LogOpened], []) ∧
       worker_task_ndcs json_loads requests_get ndc_codes_of (Some chars) code_list
       = Some (Raise e, [LogOpened], []).
Proof.
  intros Hbad Hne.
  pose proof (scan_records (file_lines chars) ∅ 0) as Hs.
  destruct (scan (file_lines chars) ∅ 0) as [idx|e] eqn:E; [by destruct Hs as [Hok _]|].
  destruct Hs as [He _]. exists e. split; [done|].
  unfold worker_task_rxcuis, worker_task_ndcs, worker_task.
  destruct (head_last_nonempty code_list Hne) as (x & y & -> & ->).
  by rewrite (init_failed chars true true false e E).
Qed.

End WorkerLoops.

Lemma replay_index_loaded :
  __init__ (Some replay_log) true true false
  = Some (Return (self_of replay_world)).
Proof. vm_compute. reflexivity. Qed.

Lemma worker_loops_replay_witness :
  (let w' := (rxcuis_loop (Json := string) Some dead_remote [211%Z] replay_world).2 in
   requests_issued w' = requests_issued replay_world ∧
   cache_writer_queue w' = cache_writer_queue replay_world) ∧
  (let w' := (ndcs_loop (Json := string) Some dead_remote (λ _, Return []) [211%Z]
                replay_world).2 in
   requests_issued w' = requests_issued replay_world ∧
   cache_writer_queue w' = cache_writer_queue replay_world).
Proof.
  apply (worker_loops_replay (Json := string) Some dead_remote (λ _, Return [])
           [211%Z] [211%Z] replay_world).
  repeat (apply Forall_cons_2; [vm_compute; eauto|]). apply Forall_nil_2.
Defined.

Lemma rxcuis_loop_forwards_misses_witness :
  omap message_key
    (cache_writer_queue
       (rxcuis_loop (Json := string) Some flaky_remote [212%Z] replay_world).2)
  = omap message_key (cache_writer_queue replay_world)
    ++ filter (λ u, cached (self_of replay_world) u = None) (rxcui_keys [212%Z]) ∧
  request_count
    (self_of (rxcuis_loop (Json := string) Some flaky_remote [212%Z] replay_world).2)
  = request_count (self_of replay_world) + 2 * length [212%Z].
Proof.
  apply (rxcuis_loop_forwards_misses (Json := string) Some flaky_remote [212%Z]
           replay_world); reflexivity.
Defined.

Lemma worker_task_corrupt_cache_witness :
  ∃ e, CacheFormatError e ∧
       worker_task_rxcuis (Json := string) Some dead_remote (Some undated_log) [211%Z]
       = Some (Raise e, [LogOpened], []) ∧
       worker_task_ndcs (Json := string) Some dead_remote (λ _, Return [])
         (Some undated_log) [211%Z]
       = Some (Raise e, [LogOpened], []).
Proof.
  apply (worker_task_corrupt_cache (Json := string) Some dead_remote (λ _, Return [])
           undated_log [211%Z]).
  - intros [_ H]. apply Forall_cons in H as [H _]. simpl in H. discriminate.
  - discriminate.
Defined.

(** ** The request keys *)

Lemma all_chars_app P a b : all_chars P (a +:+ b) = all_chars P a && all_chars P b.
Proof.
  induction a as [|x a IH]; [done|].
  rewrite string_app_cons. simpl. by rewrite IH, andb_assoc.
Qed.

Lemma pretty_N_go_decimal x : ∀ s,
  all_chars decimal_char s = true → all_chars decimal_char (pretty_N_go x s) = true.
Proof.
  induction (N.lt_wf_0 x) as [x _ IH]; intros s Hs.
  destruct (decide (x = 0)%N) as [->|Hx]; [by rewrite pretty_N_go_0|].
  rewrite pretty_N_go_step by lia. apply IH.
  - apply N.div_lt; lia.
  - simpl. rewrite Hs, andb_true_r. unfold pretty_N_char. by repeat case_match.
Qed.

Lemma pretty_Z_decimal (z : Z) : all_chars decimal_char (pretty z) = true.
Proof.
  assert (HN : ∀ p, all_chars decimal_char (pretty (Npos p)) = true).
  { intros p. unfold pretty, pretty_N. case_decide; [done|]. by apply pretty_N_go_decimal. }
  destruct z as [|p|p]; [done | apply HN |].
  unfold pretty, pretty_Z. rewrite all_chars_app. apply andb_true_iff.
  split; [done | apply (HN p)].
Qed.

Lemma decimal_no_break s : all_chars decimal_char s = true → no_break s = true.
Proof.
  induction s as [|a s IH]; [done|]. simpl. intros H.
  apply andb_true_iff in H as [Ha Hs]. rewrite (IH Hs), andb_true_r.
  unfold decimal_char in Ha. apply bool_decide_eq_true in Ha.
  repeat (apply elem_of_cons in Ha as [->|Ha]; [done|]). by apply elem_of_nil in Ha.
Qed.

Lemma no_break_app a b : no_break (a +:+ b) = no_break a && no_break b.
Proof.
  induction a as [|x a IH]; [done|].
  rewrite string_app_cons. simpl. by rewrite IH, !andb_assoc.
Qed.

(** X15. The request keys of the three per-code operations hold no line
    break, whatever the code: each fits on the key line of a cache
    record. *)
Theorem request_keys_one_line (rxcui : Z) :
  no_break (allrelated_url rxcui) = true ∧
  no_break (history_url rxcui) = true ∧
  no_break (ndcs_url rxcui) = true.
Proof.
  pose proof (decimal_no_break _ (pretty_Z_decimal rxcui)) as Hp.
  unfold allrelated_url, history_url, ndcs_url.
  rewrite !no_break_app, Hp. done.
Qed.

Lemma string_app_same_length (a b c d : string) :
  a +:+ c = b +:+ d → String.length a = String.length b → a = b ∧ c = d.
Proof.
  revert b. induction a as [|x a IH]; intros [|y b] H Hlen; try done.
  rewrite !string_app_cons in H. injection H; intros H' ->.
  destruct (IH b H') as [-> ->]; [simpl in Hlen; lia | done].
Qed.

Lemma string_app_cancel_r (a b s : string) : a +:+ s = b +:+ s → a = b.
Proof.
  intros H. apply (string_app_same_length a b s s H).
  apply (f_equal String.length) in H. rewrite !string_length_app in H. lia.
Qed.

Lemma decimal_split (a b s t : string) :
  all_chars decimal_char a = true → all_chars decimal_char b = true →
  a +:+ String "/" s = b +:+ String "/" t → a = b ∧ s = t.
Proof.
  revert b. induction a as [|x a IH]; intros [|y b] Ha Hb H.
  - by injection H; intros ->.
  - rewrite string_app_cons, string_app_nil in H. injection H; intros _ <-.
    simpl in Hb. done.
  - rewrite string_app_cons, string_app_nil in H. injection H; intros _ ->.
    simpl in Ha. done.
  - rewrite !string_app_cons in H. injection H; intros H' ->.
    simpl in Ha, Hb. apply andb_true_iff in Ha as [_ Ha]. apply andb_true_iff in Hb as [_ Hb].
    by destruct (IH b Ha Hb H') as [-> ->].
Qed.

(** X16. No two requests share a cache key: within each of the three
    operations different codes give different keys, and keys of different
    operations differ whatever the codes. *)
Theorem request_keys_distinct (a b : Z) :
  (allrelated_url a = allrelated_url b → a = b) ∧
  (history_url a = history_url b → a = b) ∧
  (ndcs_url a = ndcs_url b → a = b) ∧
  allrelated_url a ≠ history_url b ∧
  allrelated_url a ≠ ndcs_url b ∧
  history_url a ≠ ndcs_url b.
Proof.
  unfold allrelated_url, history_url, ndcs_url.
  pose proof (pretty_Z_decimal a) as Ha. pose proof (pretty_Z_decimal b) as Hb.
  repeat split.
  - intros H. apply (inj (String.append _)) in H.
    apply string_app_cancel_r in H. by apply (inj pretty).
  - intros H. apply (inj (String.append _)) in H. by apply (inj pretty).
  - intros H. apply (inj (String.append _)) in H.
    apply string_app_cancel_r in H. by apply (inj pretty).
  - string_norm. intros [=].
  - intros H. apply (inj (String.append _)) in H.
    destruct (decimal_split _ _ _ _ Ha Hb H) as [_ [=]].
  - string_norm. intros [=].
Qed.

(** ** More on the work partition *)

Lemma ceil_div_upper n w : 0 < w → ceil_div n w * w < n + w.
Proof.
  intros Hw. unfold ceil_div.
  pose proof (Nat.div_mod_eq n w) as Hdm.
  pose proof (Nat.mod_upper_bound n w ltac:(lia)) as Hub.
  destruct (n mod w =? 0) eqn:E.
  - apply Nat.eqb_eq in E. lia.
  - apply Nat.eqb_neq in E. lia.
Qed.

(** X17. With at least one worker and more than [(workerCount - 1)^2]
    codes, no worker is handed an empty segment (for the default of four
    workers: ten codes or more). *)
Theorem worker_segments_nonempty {A : Type} (w : nat) (l : list A) :
  1 ≤ w →
  (w - 1) * (w - 1) < length l →
  ∃ segs, worker_segments w l = Return segs ∧ Forall (λ seg, seg ≠ []) segs.
Proof.
  intros Hw Hn.
  assert (Hsegs : worker_segments w l
                  = Return ((λ idx, slice (ceil_div (length l) w * idx)
                                          (ceil_div (length l) w * (idx + 1)) l) <$> seq 0 w)).
  { unfold worker_segments. destruct (w =? 0) eqn:E; [|done].
    apply Nat.eqb_eq in E. lia. }
  eexists. split; [exact Hsegs|].
  apply Forall_forall. intros seg Hseg.
  apply list_elem_of_lookup in Hseg as [i Hi].
  destruct (worker_segments_lookup w l _ i seg Hsegs Hi) as [Hlt ->].
  pose proof (slice_length (ceil_div (length l) w) i l) as Hlen.
  pose proof (ceil_div_covers (length l) w ltac:(lia)) as Hc.
  pose proof (ceil_div_upper (length l) w ltac:(lia)) as Hu.
  set (s := ceil_div (length l) w) in *.
  intros Hnil. rewrite Hnil in Hlen. simpl in Hlen.
  assert (Hs : 0 < s) by (destruct s; [simpl in Hc; lia | lia]).
  assert (Hi' : s * i < length l).
  { destruct (decide (s ≤ w - 1)); nia. }
  lia.
Qed.

Lemma worker_segments_nonempty_witness :
  ∃ segs, worker_segments 4 [1; 2; 3; 4; 5; 6; 7; 8; 9; 10]%Z = Return segs ∧
          Forall (λ seg, seg ≠ []) segs.
Proof.
  apply (worker_segments_nonempty 4 [1; 2; 3; 4; 5; 6; 7; 8; 9; 10]%Z); simpl; lia.
Defined.

Lemma StronglySorted_lt_lookup (l : list Z) : ∀ i j x y,
  StronglySorted Z.lt l → i < j → l !! i = Some x → l !! j = Some y → (x < y)%Z.
Proof.
  induction l as [|a l IH]; intros i j x y Hs Hij Hi Hj; [done|].
  apply StronglySorted_inv in Hs as [Hs Ha].
  destruct i as [|i], j as [|j]; try lia; simpl in *.
  - injection Hi; intros <-. rewrite Forall_forall in Ha.
    apply Ha. apply list_elem_of_lookup. by exists j.
  - apply (IH i j); (done || lia).
Qed.

(** X18. When the work list is strictly ascending (as [sorted] of a set
    is), every code handed to a worker is smaller than every code handed
    to a worker created after it: the [from .. to] ranges that the workers
    log do not overlap. *)
Theorem worker_segments_ordered (w : nat) (l : list Z) (segs : list (list Z))
    (i j : nat) (si sj : list Z) (x y : Z) :
  StronglySorted Z.lt l →
  worker_segments w l = Return segs →
  i < j → segs !! i = Some si → segs !! j = Some sj →
  x ∈ si → y ∈ sj →
  (x < y)%Z.
Proof.
  intros Hs Hsegs Hij Hi Hj Hx Hy.
  destruct (worker_segments_lookup w l _ i si Hsegs Hi) as [_ ->].
  destruct (worker_segments_lookup w l _ j sj Hsegs Hj) as [_ ->].
  apply slice_elem in Hx as (p & Hp & Hpr).
  apply slice_elem in Hy as (q & Hq & Hqr).
  apply (StronglySorted_lt_lookup l p q); try done. nia.
Qed.

Lemma worker_segments_ordered_witness : (2 < 3)%Z.
Proof.
  apply (worker_segments_ordered 4 [1; 2; 3; 4; 5]%Z [[1; 2]; [3; 4]; [5]; []]%Z
           0 1 [1; 2]%Z [3; 4]%Z 2 3).
  - repeat (apply SSorted_cons; [|repeat (apply Forall_cons_2; [lia|]); apply Forall_nil_2]).
    apply SSorted_nil.
  - reflexivity.
  - lia.
  - reflexivity.
  - reflexivity.
  - set_solver.
  - set_solver.
Defined.

(** ** Read-only objects *)

Lemma init_read_only cache_filename fw st self :
  __init__ cache_filename true fw st = Some (Return self) → read_only self.
Proof.
  destruct cache_filename as [chars|]; [|intros [= <-]; by intros f].
  intros H.
  destruct (scan (file_lines chars) ∅ 0) as [idx|e] eqn:Hs.
  - destruct (init_loaded chars true fw st idx Hs) as (f & Hi & Hc & Hw & Hp).
    rewrite Hi in H. injection H; intros <-. intros f'. simpl. by intros [= <-].
  - rewrite (init_failed chars true fw st e Hs) in H. discriminate.
Qed.

Lemma read_only_write data_date request_url json_string self :
  read_only self →
  ∃ e, (write_cache_entry data_date request_url json_string self).1 = Raise e ∧
       rxnav_cache (write_cache_entry data_date request_url json_string self).2
       = rxnav_cache self ∧
       file_chars (write_cache_entry data_date request_url json_string self).2
       = file_chars self.
Proof.
  intros Hro. unfold write_cache_entry, file_chars, read_only in *.
  destruct (rxnav_cache_file self) as [f|] eqn:Hf; [|simpl; rewrite Hf; by eexists].
  specialize (Hro f eq_refl).
  assert (Hc : content (if rxnav_cache_file_at_EOF self then f else seek_end f) = content f)
    by (by destruct (rxnav_cache_file_at_EOF self)).
  assert (Hw : writable (if rxnav_cache_file_at_EOF self then f else seek_end f) = false)
    by (by destruct (rxnav_cache_file_at_EOF self)).
  destruct request_url as [| |url|]; try (simpl; rewrite Hc; by eexists).
  destruct json_string as [| |json|]; try (simpl; rewrite Hc; by eexists).
  unfold print_to. rewrite Hw. simpl. rewrite Hc. by eexists.
Qed.

Section ReadOnly.

Context {Json : Type}.
Variable json_loads : string → option Json.
Variable requests_get : nat → string → option string.

Lemma get_rxnav_data_read_only request_url w :
  read_only (self_of w) →
  read_only (self_of (get_rxnav_data json_loads requests_get request_url w).2).
Proof.
  unfold read_only. intros Hro.
  destruct (get_rxnav_data_paths json_loads requests_get request_url w)
    as [(p & d & f & f' & Hhit & Hf & Hc & Hw & ->)
       |[(p & d & Hhit & Hf & ->)
        |[(Hhit & Hs & ->)
         |(Hhit & Hs & i' & Hi &
           [->|[(text & j & Hg & Hj & ->)|(text & j & result & Hg & Hj & ->)]])]]];
    simpl; try done.
  intros g [= <-]. rewrite Hw. by apply Hro.
Qed.

Lemma fetch_all_read_only urls : ∀ w,
  read_only (self_of w) → read_only (self_of (fetch_all json_loads requests_get urls w)).
Proof.
  induction urls as [|u urls IH]; intros w Hro; [done|].
  simpl. apply IH. by apply get_rxnav_data_read_only.
Qed.

(** X19. An object constructed with read-only access to the cache can
    never add to it: after any series of fetches, [write_cache_entry]
    raises, whatever its arguments, and leaves the index and the
    characters of the file as they were. *)
Theorem read_only_object_cannot_write (cache_filename : option string) (fw st : bool)
    (self : rxnav_rest_api_mp) (urls : list string) (queue : list pyobj) (issued : nat)
    (data_date : string) (request_url json_string : pyobj) :
  __init__ cache_filename true fw st = Some (Return self) →
  let self' := self_of (fetch_all json_loads requests_get urls (World self queue issued)) in
  ∃ e, (write_cache_entry data_date request_url json_string self').1 = Raise e ∧
       rxnav_cache (write_cache_entry data_date request_url json_string self').2
       = rxnav_cache self' ∧
       file_chars (write_cache_entry data_date request_url json_string self').2
       = file_chars self'.
Proof.
  intros Hinit. apply read_only_write. apply fetch_all_read_only.
  simpl. by eapply init_read_only.
Qed.

End ReadOnly.

Lemma read_only_object_cannot_write_witness :
  let self' := self_of (fetch_all (Json := string) Some flaky_remote ["u"; "v"]
                          (World (self_of replay_world) [] 0)) in
  ∃ e, (write_cache_entry "20180817" (PyStr "v") (PyStr "[]") self').1 = Raise e ∧
       rxnav_cache (write_cache_entry "20180817" (PyStr "v") (PyStr "[]") self').2
       = rxnav_cache self' ∧
       file_chars (write_cache_entry "20180817" (PyStr "v") (PyStr "[]") self').2
       = file_chars self'.
Proof.
  apply (read_only_object_cannot_write (Json := string) Some flaky_remote
           (Some replay_log) true false (self_of replay_world) ["u"; "v"] [] 0
           "20180817" (PyStr "v") (PyStr "[]")).
  vm_compute. reflexivity.
Defined.

(** ** [chomp] *)

Lemma rstrip_repeat c n : rstrip c (string_repeat c n) = EmptyString.
Proof.
  induction n as [|n IH]; [done|]. cbn [string_repeat rstrip]. rewrite IH.
  by rewrite Ascii.eqb_refl.
Qed.

Lemma rstrip_app_repeat c s n : rstrip c (s +:+ string_repeat c n) = rstrip c s.
Proof.
  induction s as [|a s IH].
  - rewrite string_app_nil. apply rstrip_repeat.
  - rewrite string_app_cons. cbn [rstrip]. by rewrite IH.
Qed.

Lemma rstrip_absent c s :
  all_chars (λ a, negb (Ascii.eqb a c)) s = true → rstrip c s = s.
Proof.
  induction s as [|a s IH]; [done|]. simpl. intros H.
  apply andb_true_iff in H as [Ha Hs]. rewrite (IH Hs).
  apply negb_true_iff in Ha. rewrite Ha. by destruct s.
Qed.

Lemma no_break_no_LF s :
  no_break s = true → all_chars (λ a, negb (Ascii.eqb a LF)) s = true.
Proof.
  induction s as [|a s IH]; [done|]. simpl. intros H.
  apply andb_true_iff in H as [Ha Hs]. apply andb_true_iff in Ha as [Ha _].
  rewrite (IH Hs). unfold is_LF in Ha. by rewrite Ha.
Qed.

Lemma no_break_no_CR s :
  no_break s = true → all_chars (λ a, negb (Ascii.eqb a CR)) s = true.
Proof.
  induction s as [|a s IH]; [done|]. simpl. intros H.
  apply andb_true_iff in H as [Ha Hs]. apply andb_true_iff in Ha as [_ Ha].
  rewrite (IH Hs). unfold is_CR in Ha. by rewrite Ha.
Qed.

Lemma repeat_CR_no_LF m : all_chars (λ a, negb (Ascii.eqb a LF)) (string_repeat CR m) = true.
Proof. induction m as [|m IH]; [done|]. simpl. exact IH. Qed.

(** X20. [chomp] takes off a line ending made of any number of carriage
    returns followed by any number of line feeds: for a text [k] without
    line break, [chomp (k + '\r'*m + '\n'*n) = k].  In the other order it
    does not: [chomp ('a\n\r') = 'a\n']. *)
Theorem chomp_line_ending (k : string) (m n : nat) :
  no_break k = true →
  chomp (k +:+ string_repeat CR m +:+ string_repeat LF n) = k ∧
  chomp ("a" +:+ String LF (String CR EmptyString)) = "a" +:+ String LF EmptyString.
Proof.
  intros Hk. split; [|reflexivity]. unfold chomp.
  rewrite <- string_app_assoc, rstrip_app_repeat.
  rewrite (rstrip_absent LF).
  - rewrite rstrip_app_repeat. apply rstrip_absent. by apply no_break_no_CR.
  - rewrite all_chars_app, (no_break_no_LF k Hk). apply repeat_CR_no_LF.
Qed.

Lemma chomp_line_ending_witness :
  chomp ("{}" +:+ string_repeat CR 1 +:+ string_repeat LF 1) = "{}" ∧
  chomp ("a" +:+ String LF (String CR EmptyString)) = "a" +:+ String LF EmptyString.
Proof. apply (chomp_line_ending "{}" 1 1). reflexivity. Defined.

(** ** The positions of the subpaths *)







(** ** Traversals of a tree *)

Lemma node_size_eq {D : Type} (n : Node D) : node_size n = S (forest_size (children n)).
Proof.
  destruct n as [d cs]. reflexivity.
Qed.

Lemma forest_size_app {D : Type} (q1 q2 : list (Node D)) :
  forest_size (q1 ++ q2) = forest_size q1 + forest_size q2.
Proof. induction q1 as [|c q1 IH]; simpl; [done|]. unfold forest_size in *. simpl. lia. Qed.

Lemma preorder_eq {D : Type} (n : Node D) : preorder n = n :: (children n ≫= preorder).
Proof.
  destruct n as [d cs]. reflexivity.
Qed.

Lemma traverse_loop_dfs {D : Type} (fuel : nat) : ∀ q : list (Node D),
  forest_size q ≤ fuel → traverse_loop fuel q true = Some (q ≫= preorder).
Proof.
  induction fuel as [|fuel IH]; intros q Hq.
  - destruct q as [|q0 rest]; [done|].
    unfold forest_size in Hq. simpl in Hq. rewrite node_size_eq in Hq. lia.
  - destruct q as [|q0 rest]; [done|]. cbn [traverse_loop].
    rewrite IH.
    + rewrite bind_cons, bind_app, preorder_eq. done.
    + rewrite forest_size_app. unfold forest_size in *. simpl in Hq.
      rewrite node_size_eq in Hq. unfold forest_size in Hq. lia.
Qed.

Lemma traverse_loop_bfs {D : Type} (fuel : nat) : ∀ q : list (Node D),
  forest_size q ≤ fuel →
  ∃ out, traverse_loop fuel q false = Some out ∧ out ≡ₚ q ≫= preorder.
Proof.
  induction fuel as [|fuel IH]; intros q Hq.
  - destruct q as [|q0 rest]; [by exists []|].
    unfold forest_size in Hq. simpl in Hq. rewrite node_size_eq in Hq. lia.
  - destruct q as [|q0 rest]; [by exists []|]. cbn [traverse_loop].
    destruct (IH (rest ++ children q0)) as (out & Hout & Hperm).
    { rewrite forest_size_app. unfold forest_size in *. simpl in Hq.
      rewrite node_size_eq in Hq. unfold forest_size in Hq. lia. }
    rewrite Hout. exists (q0 :: out). split; [done|].
    rewrite bind_cons, preorder_eq. rewrite <- app_comm_cons. constructor.
    rewrite Hperm, bind_app. apply Permutation_app_comm.
Qed.

(** X22. Depth first, [traverse] yields the nodes of the tree in
    preorder (every node before its children, children left to right);
    for the empty tree it yields the single value [None], in either
    mode. *)
Theorem traverse_depth_first {D : Type} (n : Node D) :
  traverse (Some n) true = Some (Some <$> preorder n) ∧
  ∀ depth_first, traverse (None : option (Node D)) depth_first = Some [None].
Proof.
  split; [|done]. unfold traverse.
  rewrite traverse_loop_dfs by done. simpl. by rewrite preorder_eq.
Qed.

(** X23. Breadth first, [traverse] ends and yields the root first and
    then the other nodes of the tree, each as often as the depth-first
    traversal does: the two orders are permutations of each other. *)
Theorem traverse_breadth_first {D : Type} (n : Node D) :
  ∃ out, traverse (Some n) false = Some (Some n :: (Some <$> out)) ∧
         n :: out ≡ₚ preorder n.
Proof.
  unfold traverse.
  destruct (traverse_loop_bfs (forest_size (children n)) (children n)) as (out & Hout & Hperm);
    [done|].
  rewrite Hout. exists out. split; [done|].
  rewrite preorder_eq. by constructor.
Qed.

(** ** The codes by status *)

Lemma foldr_insert_dom (l : list Z) (v : string) (d : gmap Z string) :
  dom (foldr (λ x m, <[x := v]> m) d l) = list_to_set l ∪ dom d.
Proof.
  induction l as [|x l IH]; simpl.
  - by rewrite (left_id_L ∅ (∪)).
  - by rewrite dom_insert_L, IH, (assoc_L (∪)).
Qed.

Lemma foldr_insert_lookup (l : list Z) (v : string) (d : gmap Z string) k s :
  foldr (λ x m, <[x := v]> m) d l !! k = Some s → s = v ∨ d !! k = Some s.
Proof.
  induction l as [|x l IH]; simpl; [by right|].
  destruct (decide (x = k)) as [->|Hne].
  - rewrite lookup_insert_eq. intros [= <-]. by left.
  - by rewrite lookup_insert_ne.
Qed.

Section HistoricalRxcuisProperties.

Context {Json : Type}.
Variable json_loads : string → option Json.
Variable requests_get : nat → string → option string.
Variable rxcuis_of : Json → outcome (list Z).

Lemma historical_rxcuis_loop_result statuses : ∀ rxcui_set d w rxcui_set' d' w',
  historical_rxcuis_loop json_loads requests_get rxcuis_of statuses rxcui_set d w
  = (Return (rxcui_set', d'), w') →
  dom d = rxcui_set →
  dom d' = rxcui_set' ∧
  (∀ x s, d' !! x = Some s → s ∈ statuses ∨ d !! x = Some s) ∧
  request_count (self_of w') = request_count (self_of w) + length statuses.
Proof.
  induction statuses as [|status statuses IH]; intros rxcui_set d w rxcui_set' d' w' Hrun Hdom.
  { injection Hrun; intros <- <- <-. split; [done|]. split; [by right | simpl; lia]. }
  cbn [historical_rxcuis_loop] in Hrun.
  pose proof (get_rxnav_data_step json_loads requests_get (status_url status) w) as Hs.
  destruct (get_rxnav_data json_loads requests_get (status_url status) w) as [[v|e] w1];
    [|done].
  destruct Hs as (_ & _ & Hrc & _).
  destruct (rxcuis_of v) as [codes|e]; [|done].
  apply IH in Hrun as (Hd & Hv & Hr).
  - split; [done|]. split; [|simpl; lia].
    intros x s Hx. apply Hv in Hx as [Hx|Hx]; [left; by right|].
    apply foldr_insert_lookup in Hx as [->|Hx]; [left; by left | by right].
  - rewrite foldr_insert_dom, Hdom.
    rewrite list_to_set_elements_L. apply (comm_L (∪)).
Qed.

(** X24. [get_historical_rxcuis] refuses its target status values exactly
    when one of them is not among ACTIVE, RETIRED, NON-RXNORM and
    NEVER%20ACTIVE, and then nothing has happened: no request is counted,
    issued or queued. *)
Theorem get_historical_rxcuis_validation (target_status_values : list string) (w : world) :
  ((get_historical_rxcuis json_loads requests_get rxcuis_of target_status_values w).1
   = InvalidTargetStatus
   ↔ ∃ s, s ∈ target_status_values ∧ s ∉ valid_status_values) ∧
  ((get_historical_rxcuis json_loads requests_get rxcuis_of target_status_values w).1
   = InvalidTargetStatus →
   (get_historical_rxcuis json_loads requests_get rxcuis_of target_status_values w).2 = w).
Proof.
  unfold get_historical_rxcuis.
  set (T := list_to_set target_status_values : gset string).
  set (V := list_to_set valid_status_values : gset string).
  assert (Hiff : size (T ∩ V) ≠ size T
                 ↔ ∃ s, s ∈ target_status_values ∧ s ∉ valid_status_values).
  { split.
    - intros Hne. destruct (decide (T ⊆ V)) as [Hsub|Hnsub].
      + destruct Hne. f_equal. apply set_eq. intros s.
        rewrite elem_of_intersection. split; [by intros [? _] | auto].
      + destruct (set_choose_or_empty (T ∖ V)) as [[s Hs]|He].
        * apply elem_of_difference in Hs as [Hs Hn]. exists s.
          split; [by apply elem_of_list_to_set in Hs|].
          intros Hv. apply Hn. by apply elem_of_list_to_set.
        * destruct Hnsub. intros s Hs.
          destruct (decide (s ∈ V)) as [|Hn]; [done|].
          assert (Hd : s ∈ T ∖ V) by (by apply elem_of_difference).
          apply He in Hd. by apply elem_of_empty in Hd.
    - intros (s & Hs & Hn) Heq.
      assert (Hsub : T ∩ V = T).
      { apply set_subseteq_size_eq; [|lia].
        intros x Hx. by apply elem_of_intersection in Hx as [? _]. }
      assert (Hin : s ∈ T ∩ V) by (rewrite Hsub; by apply elem_of_list_to_set).
      apply elem_of_intersection in Hin as [_ Hin].
      by apply elem_of_list_to_set in Hin. }
  case_bool_decide as Hd.
  - split; [|done]. split; [intros _; by apply Hiff | done].
  - destruct (historical_rxcuis_loop _ _ _ _ _ _ _) as [r w1]. simpl.
    split; [|done]. split; [done|]. intros Hex. by apply Hiff in Hex.
Qed.

(** X25. When [get_historical_rxcuis] returns, the status dictionary has
    an entry for exactly the codes of the returned set, every status in
    it is one of the target status values, and one logical request was
    made per target value. *)
Theorem get_historical_rxcuis_result (target_status_values : list string) (w w' : world)
    (rxcui_set : gset Z) (rxcuis_status_d : gmap Z string) :
  get_historical_rxcuis json_loads requests_get rxcuis_of target_status_values w
  = (Ran (Return (rxcui_set, rxcuis_status_d)), w') →
  dom rxcuis_status_d = rxcui_set ∧
  (∀ x s, rxcuis_status_d !! x = Some s → s ∈ target_status_values) ∧
  request_count (self_of w') = request_count (self_of w) + length target_status_values.
Proof.
  unfold get_historical_rxcuis. case_bool_decide; [done|].
  destruct (historical_rxcuis_loop _ _ _ _ _ _ _) as [r w1] eqn:E.
  intros [= -> ->].
  destruct (historical_rxcuis_loop_result _ _ _ _ _ _ _ E) as (Hd & Hv & Hr);
    [by rewrite dom_empty_L|].
  split; [done|]. split; [|done].
  intros x s Hx. by destruct (Hv x s Hx) as [?|?].
Qed.

End HistoricalRxcuisProperties.

Lemma get_historical_rxcuis_result_witness :
  ∃ rxcui_set rxcuis_status_d w',
    get_historical_rxcuis Some steady_remote two_codes ["ACTIVE"; "RETIRED"]
      (World (one_entry_holder true false false) [] 0)
    = (Ran (Return (rxcui_set, rxcuis_status_d)), w') ∧
    dom rxcuis_status_d = rxcui_set ∧
    (∀ x s, rxcuis_status_d !! x = Some s → s ∈ ["ACTIVE"; "RETIRED"]) ∧
    request_count (self_of w') = 2.
Proof.
  destruct (get_historical_rxcuis Some steady_remote two_codes ["ACTIVE"; "RETIRED"]
              (World (one_entry_holder true false false) [] 0)) as [[|[[rxcui_set d]|e]] w'] eqn:E;
    [by vm_compute in E | | by vm_compute in E].
  exists rxcui_set, d, w'. split; [done|].
  exact (get_historical_rxcuis_result Some steady_remote two_codes
           ["ACTIVE"; "RETIRED"] _ w' rxcui_set d E).
Defined.
